(** * nw-builder: the download / cache / decompress pipeline

    A shallow embedding of [get] and of the three functions it awaits in
    turn, [getNwjs], [getFfmpeg] and [getNodeHeaders].  The JavaScript code is
    asynchronous and talks to the file system, the network and two archive
    libraries; here every pipeline is a function from the file-system state
    to an outcome, a new state and the list of external calls it made, in the
    order it made them.  What the outside world answers (network events,
    archive contents, faults) is read from an [Env] record. *)

From Stdlib Require Import String Ascii List Bool Arith NArith ZArith Lia.
Import ListNotations.
Open Scope string_scope.
Open Scope list_scope.

(** String concatenation ([+] and template literals); [++] is kept for lists. *)
Infix "+:+" := String.append (at level 60, right associativity) : string_scope.

(** ** JavaScript strings *)

Module Js.

(** [String.prototype.startsWith]. *)
Definition startsWith (s p : string) : bool := String.prefix p s.

(** [String.prototype.endsWith]. *)
Fixpoint endsWith (s suffix : string) : bool :=
  (s =? suffix) ||
  match s with
  | EmptyString => false
  | String _ s' => endsWith s' suffix
  end.

(** Numbers.  The code computes with byte counts only: non-negative
    integers that are doubles, and [Infinity] beyond the largest double.
    [NaN] is [None] where it can arise. *)
Inductive number := Int (n : N) | Infinity.

(** The double nearest to a non-negative integer, ties to even: what a
    numeric literal, [Number(...)] of a decimal string and an addition
    yield.  A double has 53 significant bits and the largest one 1024. *)
Definition round (n : N) : number :=
  let bits := N.size n in
  if (bits <=? 53)%N then Int n
  else
    let e := (bits - 53)%N in
    let q := N.shiftr n e in
    let r := N.land n (N.ones e) in
    let half := N.shiftl 1 (e - 1) in
    let q' := if (half <? r)%N || ((r =? half)%N && N.odd q) then (q + 1)%N else q in
    let m := N.shiftl q' e in
    if (N.size m <=? 1024)%N then Int m else Infinity.

(** [a + b] *)
Definition add (a b : number) : number :=
  match a, b with
  | Int x, Int y => round (x + y)
  | _, _ => Infinity
  end.

(** [Number(header)] for a header that is missing ([undefined], giving
    [NaN]) or holds a decimal number. *)
Definition Number (header : option N) : option number := option_map round header.

Definition of_Z (z : Z) : option number :=
  match z with
  | Z0 => Some (Int 0)
  | Zpos p => Some (round (Npos p))
  | Zneg _ => None
  end.

Definition to_Z (x : number) : option Z :=
  match x with
  | Int n => Some (Z.of_N n)
  | Infinity => None
  end.

End Js.

(** Numerals in [js_scope] are JavaScript numeric literals. *)
Declare Scope js_scope.
Delimit Scope js_scope with js.
Bind Scope js_scope with Js.number.
Number Notation Js.number Js.of_Z Js.to_Z : js_scope.

(** ** node:path, POSIX flavour

    [resolve] and [dirname] are library functions; they are modelled on path
    segments.  [normalize_segments] does what Node's [normalizeString] does
    character by character: empty and [.] segments vanish, [..] pops a
    segment (or is kept when the path is relative and nothing is left to
    pop). *)

Module Path.

Definition is_sep (c : ascii) : bool := Ascii.eqb c "/"%char.

Fixpoint segments (s : string) : list string :=
  match s with
  | EmptyString => [EmptyString]
  | String c s' =>
      if is_sep c then EmptyString :: segments s'
      else match segments s' with
           | [] => [String c EmptyString]
           | seg :: rest => String c seg :: rest
           end
  end.

Fixpoint join (l : list string) : string :=
  match l with
  | [] => ""
  | [x] => x
  | x :: l' => x +:+ "/" +:+ join l'
  end.

(** The stack holds the segments kept so far, last one first. *)
Definition norm_step (allowAboveRoot : bool) (stack : list string) (seg : string)
  : list string :=
  if (seg =? "") || (seg =? ".") then stack
  else if seg =? ".." then
    match stack with
    | [] => if allowAboveRoot then [".."] else []
    | top :: below =>
        if top =? ".." then (if allowAboveRoot then ".." :: stack else stack)
        else below
    end
  else seg :: stack.

Definition normalize_segments (allowAboveRoot : bool) (segs : list string)
  : list string :=
  rev (fold_left (norm_step allowAboveRoot) segs []).

Definition isAbsolute (p : string) : bool :=
  match p with
  | String c _ => is_sep c
  | EmptyString => false
  end.

(** The loop of [resolve]: arguments are taken from the right, the working
    directory last, until an absolute one is met; empty arguments are
    skipped. *)
Fixpoint resolve_loop (right_to_left : list string) (resolvedPath : string)
  : string * bool :=
  match right_to_left with
  | [] => (resolvedPath, false)
  | p :: more =>
      if p =? "" then resolve_loop more resolvedPath
      else
        let resolvedPath' := p +:+ "/" +:+ resolvedPath in
        if isAbsolute p then (resolvedPath', true)
        else resolve_loop more resolvedPath'
  end.

Definition resolve (cwd : string) (paths : list string) : string :=
  let '(resolvedPath, resolvedAbsolute) := resolve_loop (rev (cwd :: paths)) "" in
  let normalized :=
    join (normalize_segments (negb resolvedAbsolute) (segments resolvedPath)) in
  if resolvedAbsolute then "/" +:+ normalized
  else if normalized =? "" then "." else normalized.

(** [dirname], for the normalised paths [resolve] returns. *)
Definition dirname (p : string) : string :=
  let d := join (removelast (segments p)) in
  if d =? "" then (if isAbsolute p then "/" else ".") else d.

(** [q] lies strictly below directory [p]. *)
Definition below (p q : string) : bool := String.prefix (p +:+ "/") q.

End Path.

(** ** Options

    The record holds the options after the defaults of the destructuring
    parameter lists have been applied.  [nativeAddon] is [false | "gyp"] in
    the source: [None] stands for [false]. *)

Record GetOptions := {
  version : string;
  flavor : string;
  platform : string;
  arch : string;
  downloadUrl : string;
  cacheDir : string;
  cache : bool;
  ffmpeg : bool;
  nativeAddon : option string
}.

Inductive ArtifactKind := Runtime | Codec | Headers.

(** ** File and directory names, as the template literals build them *)

Definition sdk_infix (o : GetOptions) : string :=
  if flavor o =? "sdk" then "-sdk" else "".

Definition archive_ext (o : GetOptions) : string :=
  if platform o =? "linux" then "tar.gz" else "zip".

(** [`nwjs${flavor === "sdk" ? "-sdk" : ""}-v${version}-${platform}-${arch}`] *)
Definition nwjs_dir_name (o : GetOptions) : string :=
  "nwjs" +:+ sdk_infix o +:+ "-v" +:+ version o +:+ "-" +:+ platform o +:+ "-" +:+ arch o.

Definition nwjs_archive_name (o : GetOptions) : string :=
  nwjs_dir_name o +:+ "." +:+ archive_ext o.

(** [`ffmpeg-v${version}-${platform}-${arch}.zip`] *)
Definition ffmpeg_archive_name (o : GetOptions) : string :=
  "ffmpeg-v" +:+ version o +:+ "-" +:+ platform o +:+ "-" +:+ arch o +:+ ".zip".

(** [`headers-v${version}-${platform}-${arch}.tar.gz`] *)
Definition headers_archive_name (o : GetOptions) : string :=
  "headers-v" +:+ version o +:+ "-" +:+ platform o +:+ "-" +:+ arch o +:+ ".tar.gz".

(** [`node-v${version}-${platform}-${arch}`] *)
Definition node_dir_name (o : GetOptions) : string :=
  "node-v" +:+ version o +:+ "-" +:+ platform o +:+ "-" +:+ arch o.

Definition archive_name (k : ArtifactKind) (o : GetOptions) : string :=
  match k with
  | Runtime => nwjs_archive_name o
  | Codec => ffmpeg_archive_name o
  | Headers => headers_archive_name o
  end.

(** The [out] constant of each of the three functions:
    [resolve(cacheDir, <archive name>)]. *)
Definition locate (cwd : string) (k : ArtifactKind) (o : GetOptions) : string :=
  Path.resolve cwd [cacheDir o; archive_name k o].

(** [nwDir] of [getFfmpeg]; the same expression is the directory that
    [getNwjs] removes before it extracts. *)
Definition nwDir (cwd : string) (o : GetOptions) : string :=
  Path.resolve cwd [cacheDir o; nwjs_dir_name o].

Definition nodeDir (cwd : string) (o : GetOptions) : string :=
  Path.resolve cwd [cacheDir o; node_dir_name o].

(** ** Download URLs *)

Definition is_redirecting_mirror (o : GetOptions) : bool :=
  (downloadUrl o =? "https://npm.taobao.org/mirrors/nwjs") ||
  (downloadUrl o =? "https://npmmirror.com/mirrors/nwjs").

Definition is_known_host (o : GetOptions) : bool :=
  (downloadUrl o =? "https://dl.nwjs.io") ||
  (downloadUrl o =? "https://npm.taobao.org/mirrors/nwjs") ||
  (downloadUrl o =? "https://npmmirror.com/mirrors/nwjs").

(** [getNwjs]: [let url = ""], assigned only under the three-way test. *)
Definition nwjs_url (o : GetOptions) : string :=
  if is_known_host o
  then downloadUrl o +:+ "/v" +:+ version o +:+ "/nwjs" +:+ sdk_infix o +:+ "-v" +:+
       version o +:+ "-" +:+ platform o +:+ "-" +:+ arch o +:+ "." +:+ archive_ext o
  else "".

(** [getFfmpeg]: the [downloadUrl] option is shadowed by a constant. *)
Definition ffmpeg_downloadUrl : string :=
  "https://github.com/nwjs-ffmpeg-prebuilt/nwjs-ffmpeg-prebuilt/releases/download".

Definition ffmpeg_url (o : GetOptions) : string :=
  ffmpeg_downloadUrl +:+ "/" +:+ version o +:+ "/" +:+ version o +:+ "-" +:+
  platform o +:+ "-" +:+ arch o +:+ ".zip".

(** [getNodeHeaders]: [urlBase] ends in a slash and the template adds one. *)
Definition headers_urlBase : string := "https://dl.nwjs.io/".

Definition headers_url (o : GetOptions) : string :=
  headers_urlBase +:+ "/v" +:+ version o +:+ "/nw-headers-v" +:+ version o +:+ ".tar.gz".

(** ** External calls and what the outside world answers *)

(** A JavaScript [Error], identified by its message. *)
Definition Err := string.

(** The two decompressors of the [compressing] package. *)
Inductive Format := Tgz | Zip.

(** [response.headers]: the two entries the code reads.  A missing header is
    [undefined] in JavaScript, [None] here; [content-length], when present,
    is a decimal number of bytes (Node's HTTP parser refuses anything else). *)
Record ResponseHeaders := {
  location : option string;
  content_length : option N
}.

(** The calls a pipeline makes on the file system, the network, the archive
    libraries, the progress bar, the console and child processes. *)
Inductive Event :=
| EvRm (path : string)
| EvUncompress (fmt : Format) (src dest : string)
| EvCreateWriteStream (path : string)
| EvRequest (url : option string)
| EvBarStart (total : option Js.number)
| EvBarIncrement
| EvBarUpdate (value : Js.number)
| EvBarStop
| EvZipOpen (path : string)
| EvMkdir (path : string)
| EvOpenReadStream (entryName : string)
| EvPipe (entryName dest : string)
| EvZipClose
| EvConsoleError (e : option Err)
| EvRename (src dst : string)
| EvExec (command : string)
| EvReplaceFfmpeg (targetPlatform dir : string).

(** What the network and the destination stream deliver while a download is
    in flight, in the order of delivery. *)
Inductive NetEvent :=
| Throws (e : Err)              (* the pending [getRequest] call threw *)
| RequestError (e : Err)        (* ['error'] on the request object *)
| Response (h : ResponseHeaders) (* the callback of [getRequest] is invoked *)
| FirstResponseError (e : Err)  (* ['error'] on the first of two responses *)
| Data (len : N)                (* ['data'] on the response being piped, [chunk.length] *)
| BodyError (e : Err)           (* ['error'] on the response being piped *)
| BodyEnd                       (* ['end'] on the response being piped *)
| StreamError (e : Err)         (* ['error'] on the destination write stream, once open *)
| OpenError (e : Err).          (* ['error'] on the destination write stream: it could
                                   not be opened, no file was created *)

(** An entry of a zip archive opened with [yauzl], with the step of the walk
    (if any) that fails on it.  When the pipe fails, the error comes from
    the read or from the write stream: [opened] says whether the destination
    file had been created, [closing] what [zip.close()] answers afterwards,
    which is an error while the entry is still being read. *)
Inductive EntryFault :=
| NoFault
| ReadEntryFault (e : Err)
| MkdirFault (e : Err)
| OpenReadStreamFault (e : Err)
| PipeFault (e : Err) (opened : bool) (closing : option Err).

Record ZipEntry := {
  filename : string;
  fault : EntryFault
}.

Record Env := {
  PLATFORM : string;                               (* [process.platform] *)
  cwd : string;                                    (* [process.cwd()] *)
  network : ArtifactKind -> list NetEvent;         (* one download per kind *)
  unpack : Format -> string -> Err + list string;  (* entries the decompressor writes *)
  zip_open : string -> Err + list ZipEntry;        (* [yauzl.open] *)
  patch_error : option Err;                        (* what [exec] hands to its callback *)
  relocate_error : option Err                      (* [replaceFfmpeg] rejecting *)
}.

(** ** The file system: the paths that exist *)

Definition FS := list string.

Definition at_or_below (p q : string) : bool := (q =? p) || Path.below p q.

Definition fs_exists (fs : FS) (p : string) : bool := existsb (at_or_below p) fs.

(** [rm(p, { recursive: true, force: true })] *)
Definition fs_remove (fs : FS) (p : string) : FS :=
  filter (fun q => negb (at_or_below p q)) fs.

(** [rename(src, dst)] on one path: the part below [src] moves below [dst]. *)
Definition fs_move (src dst q : string) : string :=
  if at_or_below src q
  then dst +:+ substring (String.length src) (String.length q - String.length src) q
  else q.

(** ** Outcomes and the effect monad *)

(** How an awaited operation ends: the promise fulfils, it rejects, an
    exception nobody catches is thrown from an event callback, or the promise
    never settles. *)
Inductive Outcome (A : Type) :=
| Fulfilled (a : A)
| Rejected (e : Err)
| Uncaught (e : Err)
| Stalled.

Arguments Fulfilled {A} a.
Arguments Rejected {A} e.
Arguments Uncaught {A} e.
Arguments Stalled {A}.

Definition Eff (A : Type) : Type := FS -> Outcome A * FS * list Event.

Definition ret {A} (a : A) : Eff A := fun fs => (Fulfilled a, fs, []).

Definition bind {A B} (m : Eff A) (k : A -> Eff B) : Eff B :=
  fun fs =>
    match m fs with
    | (Fulfilled a, fs1, t1) =>
        let '(r, fs2, t2) := k a fs1 in (r, fs2, t1 ++ t2)
    | (Rejected e, fs1, t1) => (Rejected e, fs1, t1)
    | (Uncaught e, fs1, t1) => (Uncaught e, fs1, t1)
    | (Stalled, fs1, t1) => (Stalled, fs1, t1)
    end.

Notation "x <- c1 ;; c2" := (bind c1 (fun x => c2))
  (at level 61, c1 at next level, right associativity).
Notation "c1 ;; c2" := (bind c1 (fun _ => c2))
  (at level 61, right associativity).

Definition emit (ev : Event) : Eff unit := fun fs => (Fulfilled tt, fs, [ev]).

Definition throw {A} (e : Err) : Eff A := fun fs => (Rejected e, fs, []).

Definition modify (f : FS -> FS) : Eff unit := fun fs => (Fulfilled tt, f fs, []).

(** [try { body } catch (e) { handler(e) }]: only a rejection is caught. *)
Definition try_catch (body : Eff unit) (handler : Err -> Eff unit) : Eff unit :=
  fun fs =>
    match body fs with
    | (Rejected e, fs1, t1) =>
        let '(r, fs2, t2) := handler e fs1 in (r, fs2, t1 ++ t2)
    | other => other
    end.

(** [try { body } finally { finalizer }] *)
Definition finally (body : Eff unit) (finalizer : Eff unit) : Eff unit :=
  fun fs =>
    match body fs with
    | (Fulfilled _, fs1, t1) =>
        let '(r, fs2, t2) := finalizer fs1 in (r, fs2, t1 ++ t2)
    | (Rejected e, fs1, t1) =>
        match finalizer fs1 with
        | (Fulfilled _, fs2, t2) => (Rejected e, fs2, t1 ++ t2)
        | (r, fs2, t2) => (r, fs2, t1 ++ t2)
        end
    | other => other
    end.

Definition outcome_of {A} (r : Outcome A * FS * list Event) : Outcome A := fst (fst r).
Definition fs_of {A} (r : Outcome A * FS * list Event) : FS := snd (fst r).
Definition trace_of {A} (r : Outcome A * FS * list Event) : list Event := snd r.

(** ** A download in flight

    The promise [request] of each pipeline settles through the handlers the
    code registers, and through nothing else.  [Session] is the state those
    closures share: which callback is awaited, the [url] variable and the
    [chunks] counter. *)

Inductive Stage := AwaitFirstResponse | AwaitSecondResponse | Streaming.

Record Session := {
  stage : Stage;
  url : option string;
  chunks : Js.number
}.

Inductive Settled :=
| Resolve                 (* [resolve()] was called *)
| Reject (e : Err)        (* [reject(error)] was called, or the executor threw *)
| Crash (e : Err).        (* an exception no handler catches *)

(** The handlers on the response that is piped to the file: ['data'],
    ['error'] and ['end'].  The three pipelines register the same three. *)
Definition on_body (s : Session) (ev : NetEvent) : (Session + Settled) * list Event :=
  match ev with
  | Data len =>
      let n := Js.add (chunks s) (Js.round len) in
      (inl {| stage := Streaming; url := url s; chunks := n |},
       [EvBarIncrement; EvBarUpdate n])
  | BodyError e => (inr (Reject e), [])
  | BodyEnd => (inr Resolve, [EvBarStop])
  | _ => (inl s, [])
  end.

(** [getNwjs] and [getFfmpeg]: a request whose callback issues a second
    request.  [follow] says whether [url] is overwritten with the [location]
    header of the first response: for the two mirrors in [getNwjs], always in
    [getFfmpeg].  An ['error'] on a request object or on the write stream has
    no listener, so the event emitter throws it. *)
Definition two_request_step (follow : bool) (s : Session) (ev : NetEvent)
  : (Session + Settled) * list Event :=
  match ev with
  | RequestError e => (inr (Crash e), [])
  | StreamError e => (inr (Crash e), [])
  | OpenError e => (inr (Crash e), [])
  | _ =>
    match stage s with
    | AwaitFirstResponse =>
        match ev with
        | Throws e => (inr (Reject e), [])
        | Response h =>
            let url' := if follow then location h else url s in
            (inl {| stage := AwaitSecondResponse; url := url'; chunks := chunks s |},
             [EvRequest url'])
        | _ => (inl s, [])
        end
    | AwaitSecondResponse =>
        match ev with
        | Throws e => (inr (Crash e), [])
        | FirstResponseError e => (inr (Reject e), [])
        | Response h =>
            (inl {| stage := Streaming; url := url s; chunks := 0 |},
             [EvBarStart (Js.Number (content_length h))])
        | _ => (inl s, [])
        end
    | Streaming =>
        match ev with
        | FirstResponseError e => (inr (Reject e), [])
        | _ => on_body s ev
        end
    end
  end.

(** [getNodeHeaders]: a single request. *)
Definition one_request_step (s : Session) (ev : NetEvent)
  : (Session + Settled) * list Event :=
  match ev with
  | RequestError e => (inr (Crash e), [])
  | StreamError e => (inr (Crash e), [])
  | OpenError e => (inr (Crash e), [])
  | _ =>
    match stage s with
    | Streaming => on_body s ev
    | _ =>
        match ev with
        | Throws e => (inr (Reject e), [])
        | Response h =>
            (inl {| stage := Streaming; url := url s; chunks := 0 |},
             [EvBarStart (Js.Number (content_length h))])
        | _ => (inl s, [])
        end
    end
  end.

(** Deliver the events one by one until the promise settles or the process
    dies; [None] when the events run out first. *)
Fixpoint drive (step : Session -> NetEvent -> (Session + Settled) * list Event)
  (s : Session) (events : list NetEvent) : option Settled * list Event :=
  match events with
  | [] => (None, [])
  | ev :: later =>
      match step s ev with
      | (inl s', t) => let '(r, t') := drive step s' later in (r, t ++ t')
      | (inr r, t) => (Some r, t)
      end
  end.

(** [await request] *)
Definition await_settled (r : option Settled * list Event) : Eff unit :=
  fun fs =>
    match fst r with
    | Some Resolve => (Fulfilled tt, fs, snd r)
    | Some (Reject e) => (Rejected e, fs, snd r)
    | Some (Crash e) => (Uncaught e, fs, snd r)
    | None => (Stalled, fs, snd r)
    end.

Definition start (u : string) : Session :=
  {| stage := AwaitFirstResponse; url := Some u; chunks := 0 |}.

(** Whether the destination stream of a download opens: opening is
    asynchronous, and its failure is one of the events delivered. *)
Definition stream_opens (events : list NetEvent) : bool :=
  forallb (fun ev => match ev with OpenError _ => false | _ => true end) events.

(** ** The pipelines *)

Section Pipelines.

Variable env : Env.

Definition resolve (paths : list string) : string := Path.resolve (cwd env) paths.

Definition existsSync (p : string) : Eff bool :=
  fun fs => (Fulfilled (fs_exists fs p), fs, []).

Definition rm (p : string) : Eff unit :=
  emit (EvRm p) ;; modify (fun fs => fs_remove fs p).

(** [createWriteStream(p)] returns at once; the file is created when the
    stream opens, if it does. *)
Definition createWriteStream (p : string) (opens : bool) : Eff unit :=
  emit (EvCreateWriteStream p) ;;
  if opens then modify (fun fs => p :: fs) else ret tt.

(** [compressing[fmt].uncompress(src, dest)] *)
Definition uncompress (fmt : Format) (src dest : string) : Eff unit :=
  emit (EvUncompress fmt src dest) ;;
  match unpack env fmt src with
  | inl e => throw e
  | inr entries => modify (fun fs => map (fun n => resolve [dest; n]) entries ++ fs)
  end.

(** [rename(src, dst)]: fails when [src] is missing or [dst] is a directory
    that is not empty. *)
Definition rename (src dst : string) : Eff unit :=
  emit (EvRename src dst) ;;
  fun fs =>
    if negb (fs_exists fs src) then (Rejected "ENOENT", fs, [])
    else if existsb (Path.below dst) fs then (Rejected "ENOTEMPTY", fs, [])
    else (Fulfilled tt, map (fs_move src dst) fs, []).

Definition console_error (e : option Err) : Eff unit := emit (EvConsoleError e).

(** [exec(command, (error) => { console.error(error); })]: not awaited;
    the callback only logs. *)
Definition exec (command : string) : Eff unit :=
  emit (EvExec command) ;; console_error (patch_error env).

(** [replaceFfmpeg] is imported from [./util.js]; only the call is kept. *)
Definition replaceFfmpeg (targetPlatform dir : string) : Eff unit :=
  emit (EvReplaceFfmpeg targetPlatform dir) ;;
  match relocate_error env with
  | Some e => throw e
  | None => ret tt
  end.

Definition mkdir (p : string) (f : EntryFault) : Eff unit :=
  emit (EvMkdir p) ;;
  match f with
  | MkdirFault e => throw e
  | _ => modify (fun fs => p :: fs)
  end.

Definition openReadStream (entry : ZipEntry) : Eff unit :=
  emit (EvOpenReadStream (filename entry)) ;;
  match fault entry with
  | OpenReadStreamFault e => throw e
  | _ => ret tt
  end.

(** [readStream.pipe(writeStream)] inside a promise that either stream's
    ['error'] rejects and the write stream's ['finish'] resolves. *)
Definition pipe (entry : ZipEntry) (dest : string) : Eff unit :=
  emit (EvPipe (filename entry) dest) ;;
  match fault entry with
  | PipeFault e _ _ => throw e
  | _ => ret tt
  end.

(** Whether the write stream of an entry gets to create its file. *)
Definition entry_opens (f : EntryFault) : bool :=
  match f with
  | PipeFault _ opened _ => opened
  | _ => true
  end.

(** The body of the [for await] loop of [getNwjs]. *)
Definition extract_entry (o : GetOptions) (entry : ZipEntry) : Eff unit :=
  let fullEntryPath := resolve [cacheDir o; filename entry] in
  if Js.endsWith (filename entry) "/" then
    mkdir fullEntryPath (fault entry)
  else
    let directory := Path.dirname fullEntryPath in
    mkdir directory (fault entry) ;;
    openReadStream entry ;;
    createWriteStream fullEntryPath (entry_opens (fault entry)) ;;
    pipe entry fullEntryPath.

(** [for await (const entry of zip) { ... }]: the iterator itself can fail
    to produce an entry. *)
Fixpoint for_await (entries : list ZipEntry) (body : ZipEntry -> Eff unit) : Eff unit :=
  match entries with
  | [] => ret tt
  | entry :: rest =>
      match fault entry with
      | ReadEntryFault e => throw e
      | _ => body entry ;; for_await rest body
      end
  end.

Definition yauzl_open (p : string) : Eff (list ZipEntry) :=
  emit (EvZipOpen p) ;;
  match zip_open env p with
  | inl e => throw e
  | inr entries => ret entries
  end.

(** The answer [zip.close()] gets after the walk.  The archive refuses to
    close while an entry is being read; that can only be the entry at which
    the walk was left with its pipe failing, and [closing] tells. *)
Fixpoint close_answer (zip : list ZipEntry) : option Err :=
  match zip with
  | [] => None
  | entry :: rest =>
      match fault entry with
      | NoFault => close_answer rest
      | ReadEntryFault _ => None
      | MkdirFault _ => None
      | OpenReadStreamFault _ =>
          if Js.endsWith (filename entry) "/" then close_answer rest else None
      | PipeFault _ _ closing =>
          if Js.endsWith (filename entry) "/" then close_answer rest else closing
      end
  end.

(** [zip.close()] *)
Definition zip_close (answer : option Err) : Eff unit :=
  emit EvZipClose ;;
  match answer with
  | Some e => throw e
  | None => ret tt
  end.

Definition format_of (o : GetOptions) : Format :=
  if platform o =? "linux" then Tgz else Zip.

(** [try { for await ... } catch (e) { console.error(e); }
     finally { await zip.close(); }] *)
Definition entry_walk (o : GetOptions) (zip : list ZipEntry) : Eff unit :=
  finally
    (try_catch (for_await zip (extract_entry o))
               (fun e => console_error (Some e)))
    (zip_close (close_answer zip)).

(** The function passed to [request.then] in [getNwjs]. *)
Definition extract_nwjs (o : GetOptions) (out : string) : Eff unit :=
  rm (resolve [cacheDir o; nwjs_dir_name o]) ;;
  if (platform o =? "osx") && (PLATFORM env =? "darwin") then
    zip <- yauzl_open out ;;
    entry_walk o zip
  else
    uncompress (format_of o) out (cacheDir o).

Definition getNwjs (o : GetOptions) : Eff unit :=
  let out := resolve [cacheDir o; nwjs_archive_name o] in
  (if cache o then ret tt else rm out) ;;
  hit <- existsSync out ;;
  if hit then
    rm (resolve [cacheDir o; nwjs_dir_name o]) ;;
    uncompress (format_of o) out (cacheDir o)
  else
    createWriteStream out (stream_opens (network env Runtime)) ;;
    emit (EvRequest (Some (nwjs_url o))) ;;
    await_settled
      (drive (two_request_step (is_redirecting_mirror o))
             (start (nwjs_url o)) (network env Runtime)) ;;
    extract_nwjs o out.

Definition getFfmpeg (o : GetOptions) : Eff unit :=
  let nwDir := resolve [cacheDir o; nwjs_dir_name o] in
  let out := resolve [cacheDir o; ffmpeg_archive_name o] in
  (if cache o then ret tt else rm out) ;;
  hit <- existsSync out ;;
  if hit then
    uncompress Zip out nwDir
  else
    createWriteStream out (stream_opens (network env Codec)) ;;
    emit (EvRequest (Some (ffmpeg_url o))) ;;
    await_settled
      (drive (two_request_step true) (start (ffmpeg_url o)) (network env Codec)) ;;
    uncompress Zip out nwDir ;;
    replaceFfmpeg (platform o) nwDir.

Definition patch_command (o : GetOptions) : string :=
  "patch " +:+ resolve [cacheDir o; node_dir_name o; "common.gypi"] +:+ " " +:+
  resolve [".."; ".."; "patches"; "node_header.patch"].

Definition getNodeHeaders (o : GetOptions) : Eff unit :=
  let out := resolve [cacheDir o; headers_archive_name o] in
  (if cache o then ret tt else rm out) ;;
  hit <- existsSync out ;;
  if hit then
    uncompress Tgz out (cacheDir o) ;;
    rm (resolve [cacheDir o; node_dir_name o]) ;;
    rename (resolve [cacheDir o; "node"]) (resolve [cacheDir o; node_dir_name o]) ;;
    exec (patch_command o)
  else
    createWriteStream out (stream_opens (network env Headers)) ;;
    emit (EvRequest (Some (headers_url o))) ;;
    await_settled
      (drive one_request_step (start (headers_url o)) (network env Headers)) ;;
    uncompress Tgz out (cacheDir o) ;;
    rename (resolve [cacheDir o; "node"]) (resolve [cacheDir o; node_dir_name o]).

Definition wants_gyp (o : GetOptions) : bool :=
  match nativeAddon o with
  | Some s => s =? "gyp"
  | None => false
  end.

Definition get (o : GetOptions) : Eff unit :=
  getNwjs o ;;
  (if ffmpeg o then getFfmpeg o else ret tt) ;;
  (if wants_gyp o then getNodeHeaders o else ret tt).

Definition pipeline (k : ArtifactKind) : GetOptions -> Eff unit :=
  match k with
  | Runtime => getNwjs
  | Codec => getFfmpeg
  | Headers => getNodeHeaders
  end.

End Pipelines.

(** ** Vocabulary of the properties *)

(** The URLs handed to [getRequest], in call order. *)
Definition requests (t : list Event) : list (option string) :=
  flat_map (fun ev => match ev with EvRequest u => [u] | _ => [] end) t.





(** The archive is in the cache when the existence test is reached: with
    [cache = false] it has just been removed. *)
Definition cache_hit (env : Env) (k : ArtifactKind) (o : GetOptions) (fs : FS) : bool :=
  cache o && fs_exists fs (locate (cwd env) k o).

(** The first call the loop body makes for an entry: the [mkdir] of the
    entry itself or of its parent. *)
Definition entry_mkdir (env : Env) (o : GetOptions) (entry : ZipEntry) : Event :=
  let fullEntryPath := resolve env [cacheDir o; filename entry] in
  if Js.endsWith (filename entry) "/" then EvMkdir fullEntryPath
  else EvMkdir (Path.dirname fullEntryPath).

(** *** Valid targets

    The value sets of the [GetOptions] typedef: a semantic version or one of
    three tags, two flavors, three platforms, three architectures. *)

Definition is_digit (c : ascii) : bool :=
  Nat.leb 48 (nat_of_ascii c) && Nat.leb (nat_of_ascii c) 57.

Definition is_letter (c : ascii) : bool :=
  (Nat.leb 65 (nat_of_ascii c) && Nat.leb (nat_of_ascii c) 90) ||
  (Nat.leb 97 (nat_of_ascii c) && Nat.leb (nat_of_ascii c) 122).

(** Characters of a semantic version: digits, letters, [.], [-] and [+]. *)
Definition version_char (c : ascii) : bool :=
  is_digit c || is_letter c || Ascii.eqb c "."%char || Ascii.eqb c "-"%char ||
  Ascii.eqb c "+"%char.

Fixpoint all_chars (p : ascii -> bool) (s : string) : bool :=
  match s with
  | EmptyString => true
  | String c s' => p c && all_chars p s'
  end.

(** One or more digits, then [k] on what follows. *)
Fixpoint digits_then (k : string -> bool) (seen : bool) (s : string) : bool :=
  match s with
  | EmptyString => seen && k EmptyString
  | String c s' => if is_digit c then digits_then k true s' else seen && k s
  end.

Definition dot_then (k : string -> bool) (s : string) : bool :=
  match s with
  | String c s' => Ascii.eqb c "."%char && k s'
  | EmptyString => false
  end.

(** Nothing, or [-prerelease] / [+build] with at least one character. *)
Definition version_tail (s : string) : bool :=
  match s with
  | EmptyString => true
  | String c s' =>
      (Ascii.eqb c "-"%char || Ascii.eqb c "+"%char) && negb (s' =? "")
  end.

(** [MAJOR.MINOR.PATCH], optionally followed by a pre-release or build tag. *)
Definition is_semver (s : string) : bool :=
  all_chars version_char s &&
  digits_then (dot_then (digits_then (dot_then (digits_then version_tail false)) false))
              false s.

Definition valid_version (v : string) : bool :=
  (v =? "latest") || (v =? "stable") || (v =? "lts") || is_semver v.

Definition valid_flavor (f : string) : bool := (f =? "normal") || (f =? "sdk").

Definition valid_platform (p : string) : bool :=
  (p =? "linux") || (p =? "osx") || (p =? "win").

Definition valid_arch (a : string) : bool :=
  (a =? "ia32") || (a =? "x64") || (a =? "arm64").

Definition valid_target (o : GetOptions) : bool :=
  valid_version (version o) && valid_flavor (flavor o) &&
  valid_platform (platform o) && valid_arch (arch o).

(** The (version, flavor, platform, arch) tuple of the options. *)
Definition target_of (o : GetOptions) : string * string * string * string :=
  (version o, flavor o, platform o, arch o).

(** *** Auxiliary notions for strings and paths *)

(** The number of occurrences of a character. *)
Fixpoint count_char (c : ascii) (s : string) : nat :=
  match s with
  | EmptyString => 0
  | String x s' => (if Ascii.eqb x c then 1 else 0) + count_char c s'
  end.

Definition no_sep (s : string) : bool := all_chars (fun c => negb (Path.is_sep c)) s.

(** A file name: not empty, not [.] or [..], no separator. *)
Definition simple_name (n : string) : bool :=
  negb (n =? "") && negb (n =? ".") && negb (n =? "..") && no_sep n.

(** The segments of a directory, each followed by a separator. *)
Definition dir_prefix (l : list string) : string :=
  fold_right (fun x acc => x +:+ "/" +:+ acc) "" l.

(** The part of an archive name after the version. *)
Definition target_suffix (p a ext : string) : string :=
  "-" +:+ p +:+ "-" +:+ a +:+ ext.

(** *** Tests on events and traces *)

(** Every event of [t] passes the test [p]. *)
Definition only (p : Event -> bool) (t : list Event) : Prop :=
  Forall (fun ev => p ev = true) t.


Definition no_request (ev : Event) : bool :=
  match ev with EvRequest _ => false | _ => true end.

Definition no_exec (ev : Event) : bool :=
  match ev with EvExec _ => false | _ => true end.


(** [p] holds of every call a download can make. *)
Definition allows_download (p : Event -> bool) : Prop :=
  (forall u, p (EvRequest u) = true) /\ (forall n, p (EvBarStart n) = true) /\
  p EvBarIncrement = true /\ (forall n, p (EvBarUpdate n) = true) /\
  p EvBarStop = true.

(** [p] holds of every call the entry walk can make after opening the archive. *)
Definition allows_walk (p : Event -> bool) : Prop :=
  (forall x, p (EvMkdir x) = true) /\ (forall x, p (EvOpenReadStream x) = true) /\
  (forall x, p (EvCreateWriteStream x) = true) /\ (forall x y, p (EvPipe x y) = true) /\
  (forall e, p (EvConsoleError e) = true) /\ p EvZipClose = true.


(** *** Failing entries *)

(** The error the loop body rejects with on an entry, if it does: a read
    or [mkdir] fault always shows; a fault of [openReadStream] or of the
    pipe shows on file entries only, since directory entries open no
    stream. *)
Definition entry_fails (entry : ZipEntry) : option Err :=
  match fault entry with
  | NoFault => None
  | ReadEntryFault e => Some e
  | MkdirFault e => Some e
  | OpenReadStreamFault e =>
      if Js.endsWith (filename entry) "/" then None else Some e
  | PipeFault e _ _ =>
      if Js.endsWith (filename entry) "/" then None else Some e
  end.

(** What [zip.close()] answers when the walk was left at [entry]. *)
Definition closing_at (entry : ZipEntry) : option Err :=
  match fault entry with
  | PipeFault _ _ closing => closing
  | _ => None
  end.

(** How a [try]/[finally] whose body swallowed its error ends when the
    finalizer is [zip.close()]. *)
Definition closed_with (answer : option Err) : Outcome unit :=
  match answer with
  | None => Fulfilled tt
  | Some e => Rejected e
  end.

(** *** Properties the specification states and the code does not have

    Each is stated for one run, so that it can be refuted at one. *)


(** C2 as stated, for one archive: a failing entry is logged and skipped;
    the archive is closed and every later entry is still visited. *)
Definition walk_survives_failure (env : Env) (o : GetOptions) (zip : list ZipEntry)
  (fs : FS) : Prop :=
  forall pre bad post e,
    zip = pre ++ bad :: post -> entry_fails bad = Some e ->
    let t := trace_of (entry_walk env o zip fs) in
    In (EvConsoleError (Some e)) t /\ In EvZipClose t /\
    forall later, In later post -> entry_fails later = None ->
                  In (entry_mkdir env o later) t.

(** C9 as stated, for two (target, kind) pairs: equal archive paths only
    for equal pairs. *)
Definition locate_injective_at (cwd : string)
  (k1 : ArtifactKind) (o1 : GetOptions) (k2 : ArtifactKind) (o2 : GetOptions) : Prop :=
  locate cwd k1 o1 = locate cwd k2 o2 -> k1 = k2 /\ target_of o1 = target_of o2.

(** *** Sample inputs *)

(** Scenario A of the specification: the normal flavor for linux/x64. *)
Definition linux_normal : GetOptions :=
  {| version := "0.82.0"; flavor := "normal"; platform := "linux"; arch := "x64";
     downloadUrl := "https://dl.nwjs.io"; cacheDir := "./cache"; cache := true;
     ffmpeg := false; nativeAddon := None |}.

Definition linux_sdk : GetOptions :=
  {| version := "0.82.0"; flavor := "sdk"; platform := "linux"; arch := "x64";
     downloadUrl := "https://dl.nwjs.io"; cacheDir := "./cache"; cache := true;
     ffmpeg := false; nativeAddon := None |}.

(** A response that redirects to a CDN, and one that announces ten bytes. *)
Definition redirecting : ResponseHeaders :=
  {| location := Some "https://cdn.example/nw.zip"; content_length := None |}.

Definition ten_bytes : ResponseHeaders :=
  {| location := None; content_length := Some 10%N |}.

(** A linux host on which both responses arrive and the body ends after two
    chunks; archives unpack to one entry and nothing fails. *)
Definition linux_host : Env :=
  {| PLATFORM := "linux";
     cwd := "/work";
     network := fun k =>
       match k with
       | Headers => [Response ten_bytes; Data 4; Data 6; BodyEnd]
       | _ => [Response redirecting; Response ten_bytes; Data 4; Data 6; BodyEnd]
       end;
     unpack := fun _ _ => inr ["node/common.gypi"];
     zip_open := fun _ => inl "not a zip file";
     patch_error := None;
     relocate_error := None |}.

(** The codec is requested and its archive is already cached, next to a
    runtime directory left by an earlier run. *)
Definition linux_ffmpeg : GetOptions :=
  {| version := "0.82.0"; flavor := "normal"; platform := "linux"; arch := "x64";
     downloadUrl := "https://dl.nwjs.io"; cacheDir := "./cache"; cache := true;
     ffmpeg := true; nativeAddon := None |}.

Definition cached_codec : FS :=
  ["/work/cache/ffmpeg-v0.82.0-linux-x64.zip";
   "/work/cache/nwjs-v0.82.0-linux-x64/lib/libffmpeg.so"].


Definition cached_runtime : FS := ["/work/cache/nwjs-v0.82.0-linux-x64.tar.gz"].

Definition cached_headers : FS := ["/work/cache/headers-v0.82.0-linux-x64.tar.gz"].

(** An osx target extracted on a darwin host. *)
Definition darwin_host : Env :=
  {| PLATFORM := "darwin";
     cwd := "/work";
     network := fun _ => [Response redirecting; Response ten_bytes; Data 4; Data 6; BodyEnd];
     unpack := fun _ _ => inr [];
     zip_open := fun _ => inl "not a zip file";
     patch_error := None;
     relocate_error := None |}.

Definition osx_arm64 : GetOptions :=
  {| version := "0.82.0"; flavor := "normal"; platform := "osx"; arch := "arm64";
     downloadUrl := "https://dl.nwjs.io"; cacheDir := "./cache"; cache := true;
     ffmpeg := false; nativeAddon := None |}.

Definition unwritable_dir : ZipEntry :=
  {| filename := "nwjs.app/"; fault := MkdirFault "EACCES" |}.

Definition credits_file : ZipEntry :=
  {| filename := "docs/credits.html"; fault := NoFault |}.

(** A file whose write stream fails while the entry is being read. *)
Definition unwritable_file : ZipEntry :=
  {| filename := "nwjs.app/nwjs";
     fault := PipeFault "ENOSPC" true (Some "Cannot close while reading in progress") |}.

(** The runtime fetched through one of the redirecting mirrors. *)
Definition linux_npmmirror : GetOptions :=
  {| version := "0.82.0"; flavor := "normal"; platform := "linux"; arch := "x64";
     downloadUrl := "https://npmmirror.com/mirrors/nwjs"; cacheDir := "./cache";
     cache := true; ffmpeg := false; nativeAddon := None |}.

(** Headers for a native addon built with gyp. *)
Definition linux_gyp : GetOptions :=
  {| version := "0.82.0"; flavor := "normal"; platform := "linux"; arch := "x64";
     downloadUrl := "https://dl.nwjs.io"; cacheDir := "./cache"; cache := true;
     ffmpeg := false; nativeAddon := Some "gyp" |}.

Definition win_gyp : GetOptions :=
  {| version := "0.82.0"; flavor := "normal"; platform := "win"; arch := "ia32";
     downloadUrl := "https://dl.nwjs.io"; cacheDir := "./cache"; cache := true;
     ffmpeg := false; nativeAddon := Some "gyp" |}.

(** [linux_host], except that the patch command fails. *)
Definition patch_failing_host : Env :=
  {| PLATFORM := "linux";
     cwd := "/work";
     network := network linux_host;
     unpack := unpack linux_host;
     zip_open := zip_open linux_host;
     patch_error := Some "Command failed: patch";
     relocate_error := None |}.

(** A host on which [getRequest] rejects a malformed URL by throwing. *)
Definition strict_host : Env :=
  {| PLATFORM := "linux";
     cwd := "/work";
     network := fun _ => [Throws "Invalid URL"];
     unpack := unpack linux_host;
     zip_open := zip_open linux_host;
     patch_error := None;
     relocate_error := None |}.

(** A host whose disk fills up while the body is written. *)
Definition disk_full_host : Env :=
  {| PLATFORM := "linux";
     cwd := "/work";
     network := fun _ => [Response redirecting; Response ten_bytes; Data 4;
                          StreamError "ENOSPC"];
     unpack := unpack linux_host;
     zip_open := zip_open linux_host;
     patch_error := None;
     relocate_error := None |}.

(** A host on which the cache directory does not exist: the destination
    stream cannot be opened. *)
Definition no_cache_dir_host : Env :=
  {| PLATFORM := "linux";
     cwd := "/work";
     network := fun _ => [OpenError "ENOENT"];
     unpack := unpack linux_host;
     zip_open := zip_open linux_host;
     patch_error := None;
     relocate_error := None |}.

(** A host whose headers archive is announced with 2^53 + 1 bytes. *)
Definition huge_host : Env :=
  {| PLATFORM := "linux";
     cwd := "/work";
     network := fun _ =>
       [Response {| location := None; content_length := Some 9007199254740993%N |};
        Data 4; BodyEnd];
     unpack := unpack linux_host;
     zip_open := zip_open linux_host;
     patch_error := None;
     relocate_error := None |}.

(** The "Singapore mirror" example of the documentation of [get]. *)
Definition linux_cnpmjs : GetOptions :=
  {| version := "0.82.0"; flavor := "normal"; platform := "linux"; arch := "x64";
     downloadUrl := "https://cnpmjs.org/mirrors/nwjs/"; cacheDir := "./cache";
     cache := true; ffmpeg := false; nativeAddon := None |}.

(** The URL each pipeline hands to its first [getRequest]. *)
Definition first_url (k : ArtifactKind) (o : GetOptions) : string :=
  match k with
  | Runtime => nwjs_url o
  | Codec => ffmpeg_url o
  | Headers => headers_url o
  end.

(** The download of each pipeline: how its promise settles, and the calls
    made meanwhile, after the first [getRequest]. *)
Definition download (env : Env) (k : ArtifactKind) (o : GetOptions)
  : option Settled * list Event :=
  match k with
  | Runtime =>
      drive (two_request_step (is_redirecting_mirror o)) (start (nwjs_url o))
            (network env Runtime)
  | Codec => drive (two_request_step true) (start (ffmpeg_url o)) (network env Codec)
  | Headers => drive one_request_step (start (headers_url o)) (network env Headers)
  end.

(** The file system once the destination stream of the download has opened
    or has failed to open. *)
Definition with_archive (env : Env) (k : ArtifactKind) (o : GetOptions) (fs : FS) : FS :=
  if stream_opens (network env k) then locate (cwd env) k o :: fs else fs.

(** What [await request] yields when the promise does not resolve. *)
Definition failure_of (r : option Settled) : Outcome unit :=
  match r with
  | Some Resolve => Fulfilled tt
  | Some (Reject e) => Rejected e
  | Some (Crash e) => Uncaught e
  | None => Stalled
  end.
(** What each pipeline does once its download has resolved: the function
    passed to [request.then]. *)
Definition after_download (env : Env) (k : ArtifactKind) (o : GetOptions) : Eff unit :=
  match k with
  | Runtime => extract_nwjs env o (locate (cwd env) Runtime o)
  | Codec =>
      uncompress env Zip (locate (cwd env) Codec o) (nwDir (cwd env) o) ;;
      replaceFfmpeg env (platform o) (nwDir (cwd env) o)
  | Headers =>
      uncompress env Tgz (locate (cwd env) Headers o) (cacheDir o) ;;
      rename (resolve env [cacheDir o; "node"]) (nodeDir (cwd env) o)
  end.

(** The calls the loop body makes for an entry that does not fail. *)
Definition entry_calls (env : Env) (o : GetOptions) (entry : ZipEntry) : list Event :=
  let fullEntryPath := resolve env [cacheDir o; filename entry] in
  if Js.endsWith (filename entry) "/" then [EvMkdir fullEntryPath]
  else [EvMkdir (Path.dirname fullEntryPath);
        EvOpenReadStream (filename entry);
        EvCreateWriteStream fullEntryPath;
        EvPipe (filename entry) fullEntryPath].

Definition not_zip_close (ev : Event) : bool :=
  match ev with EvZipClose => false | _ => true end.


(** A darwin host on which the runtime archive opens as a zip of three
    entries, the second of which cannot be written. *)
Definition darwin_zip_host : Env :=
  {| PLATFORM := "darwin";
     cwd := "/work";
     network := fun _ => [Response redirecting; Response ten_bytes; Data 4; Data 6; BodyEnd];
     unpack := fun _ _ => inr [];
     zip_open := fun _ =>
       inr [ {| filename := "nwjs.app/"; fault := NoFault |};
             {| filename := "nwjs.app/nwjs";
                fault := PipeFault "EIO" true
                           (Some "Cannot close while reading in progress") |};
             {| filename := "credits.html"; fault := NoFault |} ];
     patch_error := None;
     relocate_error := None |}.

Definition app_dir : ZipEntry := {| filename := "nwjs.app/"; fault := NoFault |}.
(** The file extension each decompressor is meant for. *)
Definition extension (fmt : Format) : string :=
  match fmt with
  | Tgz => ".tar.gz"
  | Zip => ".zip"
  end.

(** A bulk decompression reads the archive of kind [k] and suits its name. *)
Definition own_archive (env : Env) (k : ArtifactKind) (o : GetOptions) (ev : Event) : bool :=
  match ev with
  | EvUncompress fmt src _ =>
      (src =? locate (cwd env) k o) && Js.endsWith (archive_name k o) (extension fmt)
  | _ => true
  end.



(** A host on which every archive is corrupt. *)
Definition corrupt_host : Env :=
  {| PLATFORM := "linux";
     cwd := "/work";
     network := network linux_host;
     unpack := fun _ _ => inl "unexpected end of file";
     zip_open := zip_open linux_host;
     patch_error := None;
     relocate_error := None |}.

(** The calls on the progress bar while a body arrives in chunks of the given
    lengths, [received] being the value of [chunks] before. *)
Fixpoint progress (received : Js.number) (lens : list N) : list Event :=
  match lens with
  | [] => []
  | len :: later =>
      let n := Js.add received (Js.round len) in
      EvBarIncrement :: EvBarUpdate n :: progress n later
  end.

(** The number of bytes in chunks of the given lengths. *)
Definition total (lens : list N) : N := fold_right N.add 0%N lens.

(** The events of a download that goes well: the responses the pipeline
    waits for, the body in chunks, its end. *)
Definition arrives (k : ArtifactKind) (first last : ResponseHeaders) (lens : list N)
  (later : list NetEvent) : list NetEvent :=
  match k with
  | Headers => []
  | _ => [Response first]
  end ++ Response last :: map Data lens ++ BodyEnd :: later.

(** A linux host on which the codec download is reset. *)
Definition codec_reset_host : Env :=
  {| PLATFORM := "linux";
     cwd := "/work";
     network := fun k =>
       match k with
       | Codec => [Response redirecting; FirstResponseError "ECONNRESET"]
       | _ => network linux_host k
       end;
     unpack := unpack linux_host;
     zip_open := zip_open linux_host;
     patch_error := None;
     relocate_error := None |}.

(** The runtime with the codec and the headers. *)
Definition linux_full : GetOptions :=
  {| version := "0.82.0"; flavor := "normal"; platform := "linux"; arch := "x64";
     downloadUrl := "https://dl.nwjs.io"; cacheDir := "./cache"; cache := true;
     ffmpeg := true; nativeAddon := Some "gyp" |}.

(** [m] removes no path [p] that exists. *)
Definition keeps {A} (p : string) (m : Eff A) : Prop :=
  forall fs, In p fs -> In p (fs_of (m fs)).

(** A cache that holds the headers directory of an earlier run. *)
Definition extracted_headers : FS :=
  ["/work/cache/node-v0.82.0-linux-x64/common.gypi"].

Definition linux_gyp_uncached : GetOptions :=
  {| version := "0.82.0"; flavor := "normal"; platform := "linux"; arch := "x64";
     downloadUrl := "https://dl.nwjs.io"; cacheDir := "./cache"; cache := false;
     ffmpeg := false; nativeAddon := Some "gyp" |}.

(** The pipelines [get] runs for the given options. *)
Definition wanted (k : ArtifactKind) (o : GetOptions) : bool :=
  match k with
  | Runtime => true
  | Codec => ffmpeg o
  | Headers => wants_gyp o
  end.

(** A cache that holds the three archives of 0.82.0 for linux x64. *)
Definition full_cache : FS :=
  ["/work/cache/nwjs-v0.82.0-linux-x64.tar.gz";
   "/work/cache/ffmpeg-v0.82.0-linux-x64.zip";
   "/work/cache/headers-v0.82.0-linux-x64.tar.gz"].

(** * Proofs *)

(** ** Strings *)

Lemma app_assoc_s (a b c : string) : (a +:+ b) +:+ c = a +:+ (b +:+ c).
Proof. induction a as [|x a IH]; simpl; [reflexivity | now rewrite IH]. Qed.

Lemma app_empty_r (a : string) : a +:+ "" = a.
Proof. induction a as [|x a IH]; simpl; [reflexivity | now rewrite IH]. Qed.

Lemma app_inv_head_s (a b c : string) : a +:+ b = a +:+ c -> b = c.
Proof.
  induction a as [|x a IH]; simpl; intros H; [assumption |].
  injection H as H. now apply IH.
Qed.

(** Two ways of cutting the same string: one tail is a tail of the other. *)
Lemma app_eq_cases (a b c d : string) :
  a +:+ b = c +:+ d ->
  exists w, (b = w +:+ d /\ c = a +:+ w) \/ (d = w +:+ b /\ a = c +:+ w).
Proof.
  revert c. induction a as [|x a IH]; intros c H; simpl in H.
  - exists c. left. now split.
  - destruct c as [|y c]; simpl in H.
    + exists (String x a). right. split; [now symmetry | reflexivity].
    + injection H as -> H. destruct (IH _ H) as [w [[-> ->] | [-> ->]]];
        exists w; [left | right]; now split.
Qed.

Lemma count_char_app c (a b : string) :
  count_char c (a +:+ b) = count_char c a + count_char c b.
Proof. induction a as [|x a IH]; simpl; [reflexivity | rewrite IH; lia]. Qed.

(** Tails that start with [c] and hold equally many [c]: the cut is unique. *)
Lemma app_tail_unique c (a b a' b' : string) :
  Js.startsWith b (String c "") = true ->
  Js.startsWith b' (String c "") = true ->
  count_char c b = count_char c b' ->
  a +:+ b = a' +:+ b' -> a = a' /\ b = b'.
Proof.
  intros Hb Hb' Hn H.
  assert (Hhead : forall w t u, Js.startsWith u (String c "") = true ->
            u = w +:+ t -> count_char c u = count_char c t -> w = "").
  { intros w t u Hu -> Hc. rewrite count_char_app in Hc.
    destruct w as [|x w]; [reflexivity |]. exfalso.
    unfold Js.startsWith in Hu. simpl in Hu.
    destruct (ascii_dec c x) as [<- | Hne]; [| discriminate].
    simpl in Hc. rewrite Ascii.eqb_refl in Hc. lia. }
  destruct (app_eq_cases _ _ _ _ H) as [w [[E1 E2] | [E1 E2]]].
  - assert (w = "") as -> by exact (Hhead w b' b Hb E1 Hn).
    simpl in E1. rewrite app_empty_r in E2. now subst.
  - assert (w = "") as -> by exact (Hhead w b b' Hb' E1 (eq_sym Hn)).
    simpl in E1. rewrite app_empty_r in E2. now subst.
Qed.

Lemma all_chars_app p (a b : string) :
  all_chars p (a +:+ b) = all_chars p a && all_chars p b.
Proof.
  induction a as [|x a IH]; simpl; [reflexivity |].
  rewrite IH. now rewrite andb_assoc.
Qed.

Lemma all_chars_weaken (p q : ascii -> bool) (s : string) :
  (forall c, p c = true -> q c = true) ->
  all_chars p s = true -> all_chars q s = true.
Proof.
  intros Hpq. induction s as [|x s IH]; simpl; [reflexivity |].
  intros H. apply andb_true_iff in H as [H1 H2].
  rewrite (Hpq _ H1). now apply IH.
Qed.

(** ** Paths *)

Lemma segments_nonempty (s : string) : Path.segments s <> [].
Proof.
  destruct s as [|c s]; simpl; [discriminate |].
  destruct (Path.is_sep c); [discriminate |].
  destruct (Path.segments s); discriminate.
Qed.

Lemma segments_no_sep (s : string) : no_sep s = true -> Path.segments s = [s].
Proof.
  unfold no_sep. induction s as [|c s IH]; simpl; [reflexivity |].
  intros H. apply andb_true_iff in H as [Hc Hs].
  apply negb_true_iff in Hc. rewrite Hc, (IH Hs). reflexivity.
Qed.

Lemma segments_app_sep (a b : string) :
  Path.segments (a +:+ "/" +:+ b) = Path.segments a ++ Path.segments b.
Proof.
  induction a as [|c a IH]; simpl in *; [reflexivity |].
  rewrite IH. destruct (Path.is_sep c); [reflexivity |].
  destruct (Path.segments a) eqn:E; [now apply segments_nonempty in E |].
  reflexivity.
Qed.

Lemma join_snoc (l : list string) (n : string) :
  Path.join (l ++ [n]) = dir_prefix l +:+ n.
Proof.
  induction l as [|x l IH]; [reflexivity |].
  transitivity (x +:+ "/" +:+ Path.join (l ++ [n])).
  - destruct l; reflexivity.
  - rewrite IH. simpl. now rewrite app_assoc_s.
Qed.

Lemma resolve_loop_acc (l : list string) (acc : string) :
  Path.resolve_loop l acc =
  (fst (Path.resolve_loop l "") +:+ acc, snd (Path.resolve_loop l "")).
Proof.
  revert acc. induction l as [|p l IH]; intros acc; cbn [Path.resolve_loop fst snd]; [reflexivity |].
  destruct (p =? ""); [apply IH |].
  destruct (Path.isAbsolute p); cbn [fst snd].
  - now rewrite !app_assoc_s.
  - rewrite (IH (p +:+ "/" +:+ acc)), (IH (p +:+ "/" +:+ "")). cbn [fst snd].
    now rewrite !app_assoc_s.
Qed.
Lemma resolve_loop_shape (l : list string) :
  fst (Path.resolve_loop l "") = "" \/
  exists P, fst (Path.resolve_loop l "") = P +:+ "/".
Proof.
  induction l as [|p l IH]; cbn [Path.resolve_loop fst snd]; [now left |].
  destruct (p =? ""); [exact IH |].
  destruct (Path.isAbsolute p); cbn [fst snd].
  - right. exists p. reflexivity.
  - right. rewrite resolve_loop_acc. cbn [fst snd].
    destruct IH as [-> | [P ->]].
    + exists p. reflexivity.
    + exists (P +:+ "/" +:+ p). now rewrite !app_assoc_s.
Qed.

Lemma simple_name_facts (n : string) :
  simple_name n = true ->
  (n =? "") = false /\ (n =? ".") = false /\ (n =? "..") = false /\
  no_sep n = true /\ Path.isAbsolute n = false.
Proof.
  unfold simple_name. intros H.
  apply andb_true_iff in H as [H H4]. apply andb_true_iff in H as [H H3].
  apply andb_true_iff in H as [H1 H2].
  apply negb_true_iff in H1, H2, H3.
  repeat split; try assumption.
  destruct n as [|c n]; [reflexivity |].
  unfold no_sep in H4. cbn [all_chars] in H4.
  apply andb_true_iff in H4 as [H4 _]. now apply negb_true_iff in H4.
Qed.
Lemma resolve_loop_cons (p : string) (l : list string) (acc : string) :
  Path.resolve_loop (p :: l) acc =
  if p =? "" then Path.resolve_loop l acc
  else if Path.isAbsolute p then (p +:+ "/" +:+ acc, true)
       else Path.resolve_loop l (p +:+ "/" +:+ acc).
Proof. reflexivity. Qed.

Lemma resolve_simple_name (cwd d : string) :
  exists base, forall n, simple_name n = true ->
    Path.resolve cwd [d; n] = base +:+ n.
Proof.
  pose (r := Path.resolve_loop [d; cwd] "").
  pose (dirs := match fst r with "" => [] | _ => removelast (Path.segments (fst r)) end).
  pose (st := fold_left (Path.norm_step (negb (snd r))) dirs []).
  assert (Hseg : forall n, simple_name n = true ->
            Path.segments (fst r +:+ n +:+ "/" +:+ "") = dirs ++ [n; ""]).
  { intros n Hn. destruct (simple_name_facts n Hn) as (_ & _ & _ & Hns & _).
    unfold dirs.
    destruct (resolve_loop_shape [d; cwd]) as [E | [P E]]; fold r in E; rewrite E.
    - change ("" +:+ n +:+ "/" +:+ "") with (n +:+ "/" +:+ "").
      rewrite segments_app_sep, (segments_no_sep _ Hns). reflexivity.
    - destruct (P +:+ "/") eqn:EP; [destruct P; discriminate |]. rewrite <- EP.
      rewrite app_assoc_s, !segments_app_sep, (segments_no_sep _ Hns).
      replace (P +:+ "/") with (P +:+ "/" +:+ "") by reflexivity.
      rewrite segments_app_sep. cbn [Path.segments].
      rewrite removelast_last. reflexivity. }
  exists ((if snd r then "/" else "") +:+ dir_prefix (rev st)).
  intros n Hn. destruct (simple_name_facts n Hn) as (E0 & E1 & E2 & Hns & Habs).
  assert (Hnorm : Path.join (Path.normalize_segments (negb (snd r))
                    (Path.segments (fst r +:+ n +:+ "/" +:+ ""))) =
                  dir_prefix (rev st) +:+ n).
  { unfold Path.normalize_segments. rewrite (Hseg n Hn), fold_left_app. fold st.
    cbn [fold_left]. unfold Path.norm_step at 1 2. rewrite E0, E1, E2.
    cbn. apply join_snoc. }
  unfold Path.resolve. cbn [rev app].
  rewrite resolve_loop_cons, E0, Habs, resolve_loop_acc. fold r.
  destruct (snd r) eqn:Eabs; rewrite Hnorm.
  - reflexivity.
  - destruct (dir_prefix (rev st) +:+ n =? "") eqn:E; [| reflexivity].
    apply String.eqb_eq in E. apply String.eqb_neq in E0.
    destruct (dir_prefix (rev st)); simpl in E; [contradiction | discriminate].
Qed.

Lemma resolve_simple_name_inj (cwd d n1 n2 : string) :
  simple_name n1 = true -> simple_name n2 = true ->
  Path.resolve cwd [d; n1] = Path.resolve cwd [d; n2] -> n1 = n2.
Proof.
  intros H1 H2 H. destruct (resolve_simple_name cwd d) as [base Hb].
  rewrite (Hb _ H1), (Hb _ H2) in H. now apply app_inv_head_s in H.
Qed.

(** ** Archive names *)

Lemma valid_platform_cases (p : string) :
  valid_platform p = true -> p = "linux" \/ p = "osx" \/ p = "win".
Proof.
  unfold valid_platform. rewrite !orb_true_iff, !String.eqb_eq. tauto.
Qed.

Lemma valid_arch_cases (a : string) :
  valid_arch a = true -> a = "ia32" \/ a = "x64" \/ a = "arm64".
Proof.
  unfold valid_arch. rewrite !orb_true_iff, !String.eqb_eq. tauto.
Qed.

Lemma valid_flavor_cases (f : string) :
  valid_flavor f = true -> f = "normal" \/ f = "sdk".
Proof.
  unfold valid_flavor. rewrite !orb_true_iff, !String.eqb_eq. tauto.
Qed.

Lemma valid_version_cases (v : string) :
  valid_version v = true ->
  v = "latest" \/ v = "stable" \/ v = "lts" \/ is_semver v = true.
Proof.
  unfold valid_version. rewrite !orb_true_iff, !String.eqb_eq. tauto.
Qed.

Lemma version_char_no_sep (c : ascii) :
  version_char c = true -> negb (Path.is_sep c) = true.
Proof.
  intros H. destruct (Path.is_sep c) eqn:E; [| reflexivity].
  unfold Path.is_sep in E. apply Ascii.eqb_eq in E. subst c. discriminate.
Qed.

Lemma valid_version_no_sep (v : string) : valid_version v = true -> no_sep v = true.
Proof.
  intros H. destruct (valid_version_cases v H) as [-> | [-> | [-> | Hs]]];
    try reflexivity.
  unfold is_semver in Hs. apply andb_true_iff in Hs as [Hs _].
  exact (all_chars_weaken _ _ _ version_char_no_sep Hs).
Qed.

(** Case analysis on the platform and the architecture of a valid target. *)
Ltac enum_platform_arch Hp Ha :=
  destruct (valid_platform_cases _ Hp) as [-> | [-> | ->]];
  destruct (valid_arch_cases _ Ha) as [-> | [-> | ->]].

Lemma valid_target_parts (o : GetOptions) :
  valid_target o = true ->
  valid_version (version o) = true /\ valid_flavor (flavor o) = true /\
  valid_platform (platform o) = true /\ valid_arch (arch o) = true.
Proof.
  unfold valid_target. rewrite !andb_true_iff. tauto.
Qed.

Lemma target_suffix_shape (p a ext : string) :
  valid_platform p = true -> valid_arch a = true ->
  ext = ".zip" \/ ext = ".tar.gz" \/ ext = "" ->
  Js.startsWith (target_suffix p a ext) "-" = true /\
  count_char "-" (target_suffix p a ext) = 2.
Proof.
  intros Hp Ha He. enum_platform_arch Hp Ha; destruct He as [-> | [-> | ->]];
    split; reflexivity.
Qed.

Lemma target_suffix_inj (p1 a1 e1 p2 a2 e2 : string) :
  valid_platform p1 = true -> valid_arch a1 = true ->
  valid_platform p2 = true -> valid_arch a2 = true ->
  e1 = ".zip" \/ e1 = ".tar.gz" \/ e1 = "" -> e2 = ".zip" \/ e2 = ".tar.gz" \/ e2 = "" ->
  target_suffix p1 a1 e1 = target_suffix p2 a2 e2 -> p1 = p2 /\ a1 = a2.
Proof.
  intros Hp1 Ha1 Hp2 Ha2 He1 He2 H.
  destruct (valid_platform_cases _ Hp1) as [-> | [-> | ->]];
  destruct (valid_platform_cases _ Hp2) as [-> | [-> | ->]];
  try discriminate H;
  destruct (valid_arch_cases _ Ha1) as [-> | [-> | ->]];
  destruct (valid_arch_cases _ Ha2) as [-> | [-> | ->]];
  try discriminate H; try (split; reflexivity);
  destruct He1 as [-> | [-> | ->]]; destruct He2 as [-> | [-> | ->]]; discriminate H.
Qed.

(** A version followed by a target suffix can be cut in one way only. *)
Lemma version_suffix_inj (v1 p1 a1 e1 v2 p2 a2 e2 : string) :
  valid_platform p1 = true -> valid_arch a1 = true ->
  valid_platform p2 = true -> valid_arch a2 = true ->
  e1 = ".zip" \/ e1 = ".tar.gz" \/ e1 = "" -> e2 = ".zip" \/ e2 = ".tar.gz" \/ e2 = "" ->
  v1 +:+ target_suffix p1 a1 e1 = v2 +:+ target_suffix p2 a2 e2 ->
  v1 = v2 /\ p1 = p2 /\ a1 = a2.
Proof.
  intros Hp1 Ha1 Hp2 Ha2 He1 He2 H.
  destruct (target_suffix_shape p1 a1 e1 Hp1 Ha1 He1) as [S1 N1].
  destruct (target_suffix_shape p2 a2 e2 Hp2 Ha2 He2) as [S2 N2].
  destruct (app_tail_unique "-" _ _ _ _ S1 S2 (eq_trans N1 (eq_sym N2)) H) as [Hv Hs].
  split; [exact Hv |].
  exact (target_suffix_inj _ _ _ _ _ _ Hp1 Ha1 Hp2 Ha2 He1 He2 Hs).
Qed.

Lemma archive_ext_cases (o : GetOptions) :
  "." +:+ archive_ext o = ".zip" \/ "." +:+ archive_ext o = ".tar.gz" \/
  "." +:+ archive_ext o = "".
Proof. unfold archive_ext. destruct (platform o =? "linux"); auto. Qed.

Lemma nwjs_archive_name_eq (o : GetOptions) :
  nwjs_archive_name o =
  "nwjs" +:+ sdk_infix o +:+ "-v" +:+ version o +:+
  target_suffix (platform o) (arch o) ("." +:+ archive_ext o).
Proof.
  unfold nwjs_archive_name, nwjs_dir_name, target_suffix.
  now rewrite !app_assoc_s.
Qed.

Lemma ffmpeg_archive_name_eq (o : GetOptions) :
  ffmpeg_archive_name o =
  "ffmpeg-v" +:+ version o +:+ target_suffix (platform o) (arch o) ".zip".
Proof. reflexivity. Qed.

Lemma headers_archive_name_eq (o : GetOptions) :
  headers_archive_name o =
  "headers-v" +:+ version o +:+ target_suffix (platform o) (arch o) ".tar.gz".
Proof. reflexivity. Qed.

Lemma target_suffix_no_sep (p a ext : string) :
  valid_platform p = true -> valid_arch a = true ->
  ext = ".zip" \/ ext = ".tar.gz" \/ ext = "" -> no_sep (target_suffix p a ext) = true.
Proof.
  intros Hp Ha He. enum_platform_arch Hp Ha; destruct He as [-> | [-> | ->]]; reflexivity.
Qed.

Lemma archive_name_simple (k : ArtifactKind) (o : GetOptions) :
  valid_target o = true -> simple_name (archive_name k o) = true.
Proof.
  intros H. destruct (valid_target_parts o H) as (Hv & Hf & Hp & Ha).
  pose proof (valid_version_no_sep _ Hv) as Hns.
  unfold simple_name.
  destruct k; cbn [archive_name];
    rewrite ?nwjs_archive_name_eq, ?ffmpeg_archive_name_eq, ?headers_archive_name_eq.
  - pose proof (target_suffix_no_sep _ _ _ Hp Ha (archive_ext_cases o)) as Hs.
    unfold no_sep in *. rewrite !all_chars_app, Hns, Hs.
    destruct (valid_flavor_cases _ Hf) as [E | E]; unfold sdk_infix; rewrite E;
      reflexivity.
  - pose proof (target_suffix_no_sep _ _ ".zip" Hp Ha (or_introl eq_refl)) as Hs.
    unfold no_sep in *. rewrite !all_chars_app, Hns, Hs. reflexivity.
  - pose proof (target_suffix_no_sep _ _ ".tar.gz" Hp Ha (or_intror (or_introl eq_refl))) as Hs.
    unfold no_sep in *. rewrite !all_chars_app, Hns, Hs. reflexivity.
Qed.

Lemma archive_name_inj (k1 k2 : ArtifactKind) (o1 o2 : GetOptions) :
  valid_target o1 = true -> valid_target o2 = true ->
  archive_name k1 o1 = archive_name k2 o2 ->
  k1 = k2 /\ version o1 = version o2 /\ platform o1 = platform o2 /\
  arch o1 = arch o2 /\ (k1 = Runtime -> flavor o1 = flavor o2).
Proof.
  intros H1 H2 H.
  destruct (valid_target_parts o1 H1) as (Hv1 & Hf1 & Hp1 & Ha1).
  destruct (valid_target_parts o2 H2) as (Hv2 & Hf2 & Hp2 & Ha2).
  destruct k1, k2; cbn [archive_name] in H;
    rewrite ?nwjs_archive_name_eq, ?ffmpeg_archive_name_eq, ?headers_archive_name_eq in H;
    try discriminate H.
  - apply (app_inv_head_s "nwjs") in H.
    unfold sdk_infix in H.
    destruct (valid_flavor_cases _ Hf1) as [F1 | F1];
    destruct (valid_flavor_cases _ Hf2) as [F2 | F2];
      rewrite F1, F2 in H; cbn [String.eqb Ascii.eqb Bool.eqb] in H.
    + apply (app_inv_head_s "-v") in H.
      destruct (version_suffix_inj _ _ _ _ _ _ _ _ Hp1 Ha1 Hp2 Ha2
                  (archive_ext_cases o1) (archive_ext_cases o2) H) as (? & ? & ?).
      repeat split; try assumption. intros _. congruence.
    + discriminate H.
    + discriminate H.
    + apply (app_inv_head_s "-sdk-v") in H.
      destruct (version_suffix_inj _ _ _ _ _ _ _ _ Hp1 Ha1 Hp2 Ha2
                  (archive_ext_cases o1) (archive_ext_cases o2) H) as (? & ? & ?).
      repeat split; try assumption. intros _. congruence.
  - apply (app_inv_head_s "ffmpeg-v") in H.
    destruct (version_suffix_inj _ _ _ _ _ _ _ _ Hp1 Ha1 Hp2 Ha2
                (or_introl eq_refl) (or_introl eq_refl) H) as (? & ? & ?).
    repeat split; try assumption. discriminate.
  - apply (app_inv_head_s "headers-v") in H.
    destruct (version_suffix_inj _ _ _ _ _ _ _ _ Hp1 Ha1 Hp2 Ha2
                (or_intror (or_introl eq_refl)) (or_intror (or_introl eq_refl)) H) as (? & ? & ?).
    repeat split; try assumption. discriminate.
Qed.

(** ** The cache path ([locate]) *)

(** C9 as stated fails: the codec archive path leaves the flavor out, so the
    normal and the sdk target of one version collide. *)
Lemma locate_codec_flavor_collision :
  valid_target linux_normal = true /\ valid_target linux_sdk = true /\
  ~ locate_injective_at "/work" Codec linux_normal Codec linux_sdk.
Proof.
  repeat split; try reflexivity.
  intros H. destruct (H eq_refl) as [_ E]. discriminate E.
Qed.

(** Valid targets under one cache directory with the same archive path
    agree on kind, version, platform and architecture, and on the flavor when
    the kind is the runtime. *)
Lemma locate_eq_components (cwd : string) (k1 k2 : ArtifactKind) (o1 o2 : GetOptions) :
  valid_target o1 = true -> valid_target o2 = true ->
  cacheDir o1 = cacheDir o2 ->
  locate cwd k1 o1 = locate cwd k2 o2 ->
  k1 = k2 /\ version o1 = version o2 /\ platform o1 = platform o2 /\
  arch o1 = arch o2 /\ (k1 = Runtime -> flavor o1 = flavor o2).
Proof.
  intros H1 H2 Hd. unfold locate. rewrite Hd. intros H.
  apply resolve_simple_name_inj in H; try (now apply archive_name_simple).
  now apply archive_name_inj.
Qed.

(** C9, amended: for valid targets under one cache directory, two
    (target, kind) pairs get the same archive path exactly when they have the
    same kind, version, platform and architecture and, for the runtime kind,
    the same flavor.  The path is a function of these components alone. *)
Theorem locate_collision_iff (cwd : string) (k1 k2 : ArtifactKind) (o1 o2 : GetOptions) :
  valid_target o1 = true -> valid_target o2 = true ->
  cacheDir o1 = cacheDir o2 ->
  (locate cwd k1 o1 = locate cwd k2 o2 <->
   k1 = k2 /\ version o1 = version o2 /\ platform o1 = platform o2 /\
   arch o1 = arch o2 /\ (k1 = Runtime -> flavor o1 = flavor o2)).
Proof.
  intros H1 H2 Hd. split.
  - now apply locate_eq_components.
  - intros (<- & Hv & Hp & Ha & Hf). unfold locate. rewrite Hd. f_equal. f_equal. f_equal.
    destruct k1; cbn [archive_name].
    + unfold nwjs_archive_name, nwjs_dir_name, sdk_infix, archive_ext.
      now rewrite Hv, Hp, Ha, (Hf eq_refl).
    + unfold ffmpeg_archive_name. now rewrite Hv, Hp, Ha.
    + unfold headers_archive_name. now rewrite Hv, Hp, Ha.
Qed.

(** The runtime archive of the normal flavor and the codec archive of the sdk
    flavor, on the linux/x64 target. *)
Lemma locate_collision_iff_witness :
  locate "/work" Runtime linux_normal = locate "/work" Codec linux_sdk <->
  Runtime = Codec /\ version linux_normal = version linux_sdk /\
  platform linux_normal = platform linux_sdk /\
  arch linux_normal = arch linux_sdk /\
  (Runtime = Runtime -> flavor linux_normal = flavor linux_sdk).
Proof.
  apply (locate_collision_iff "/work" Runtime Codec linux_normal linux_sdk);
    reflexivity.
Defined.


(** ** The effect monad *)

Lemma trace_bind {A B} (m : Eff A) (k : A -> Eff B) (fs : FS) :
  trace_of (bind m k fs) =
  trace_of (m fs) ++
  match outcome_of (m fs) with
  | Fulfilled a => trace_of (k a (fs_of (m fs)))
  | _ => []
  end.
Proof.
  unfold bind, trace_of, outcome_of, fs_of.
  destruct (m fs) as [[[a | e | e |] fs1] t1]; cbn [fst snd];
    try (now rewrite app_nil_r).
  now destruct (k a fs1) as [[r fs2] t2].
Qed.

Lemma outcome_bind {A B} (m : Eff A) (k : A -> Eff B) (fs : FS) :
  outcome_of (bind m k fs) =
  match outcome_of (m fs) with
  | Fulfilled a => outcome_of (k a (fs_of (m fs)))
  | Rejected e => Rejected e
  | Uncaught e => Uncaught e
  | Stalled => Stalled
  end.
Proof.
  unfold bind, trace_of, outcome_of, fs_of.
  destruct (m fs) as [[[a | e | e |] fs1] t1]; cbn [fst snd]; try reflexivity.
  now destruct (k a fs1) as [[r fs2] t2].
Qed.

(** ** Traces all of whose events satisfy a test *)

Section Only.
Variable p : Event -> bool.

Lemma only_app a b : only p a -> only p b -> only p (a ++ b).
Proof. intros; now apply Forall_app. Qed.

Lemma only_bind {A B} (m : Eff A) (k : A -> Eff B) (fs : FS) :
  only p (trace_of (m fs)) -> (forall a fs', only p (trace_of (k a fs'))) ->
  only p (trace_of (bind m k fs)).
Proof.
  intros Hm Hk. rewrite trace_bind. apply only_app; [exact Hm |].
  destruct (outcome_of (m fs)); [apply Hk | | |]; constructor.
Qed.

Lemma only_emit (ev : Event) (fs : FS) : p ev = true -> only p (trace_of (emit ev fs)).
Proof. intros H. repeat constructor. exact H. Qed.

Lemma only_ret {A} (a : A) (fs : FS) : only p (trace_of (ret a fs)).
Proof. constructor. Qed.

Lemma only_throw {A} (e : Err) (fs : FS) : only p (trace_of (@throw A e fs)).
Proof. constructor. Qed.

Lemma only_modify (f : FS -> FS) (fs : FS) : only p (trace_of (modify f fs)).
Proof. constructor. Qed.

Lemma only_try_catch body handler fs :
  only p (trace_of (body fs)) -> (forall e fs', only p (trace_of (handler e fs'))) ->
  only p (trace_of (try_catch body handler fs)).
Proof.
  intros Hb Hh. unfold try_catch, trace_of in *.
  destruct (body fs) as [[[a | e | e |] fs1] t1]; cbn [snd] in *; try exact Hb.
  specialize (Hh e fs1). destruct (handler e fs1) as [[r fs2] t2]. cbn [snd] in *.
  now apply only_app.
Qed.

Lemma only_finally body finalizer fs :
  only p (trace_of (body fs)) -> (forall fs', only p (trace_of (finalizer fs'))) ->
  only p (trace_of (finally body finalizer fs)).
Proof.
  intros Hb Hf. unfold finally, trace_of in *.
  destruct (body fs) as [[[a | e | e |] fs1] t1]; cbn [snd] in *; try exact Hb;
    specialize (Hf fs1); destruct (finalizer fs1) as [[[a' | e' | e' |] fs2] t2];
    cbn [snd] in *; now apply only_app.
Qed.

Section Download.
Hypothesis Hp : allows_download p.

Lemma only_on_body s ev : only p (snd (on_body s ev)).
Proof.
  destruct Hp as (? & ? & ? & ? & ?). destruct ev; cbn; repeat constructor; auto.
Qed.

Lemma only_two_request_step follow s ev : only p (snd (two_request_step follow s ev)).
Proof.
  pose proof (only_on_body s ev) as Hb. destruct Hp as (? & ? & ? & ? & ?).
  unfold two_request_step.
  destruct ev; destruct (stage s); try exact Hb; cbn; repeat constructor; auto.
Qed.

Lemma only_one_request_step s ev : only p (snd (one_request_step s ev)).
Proof.
  pose proof (only_on_body s ev) as Hb. destruct Hp as (? & ? & ? & ? & ?).
  unfold one_request_step.
  destruct ev; destruct (stage s); try exact Hb; cbn; repeat constructor; auto.
Qed.

Lemma only_drive step :
  (forall s ev, only p (snd (step s ev))) ->
  forall events s, only p (snd (drive step s events)).
Proof.
  intros Hstep. induction events as [|ev later IH]; intros s; cbn; [constructor |].
  specialize (Hstep s ev). destruct (step s ev) as [[s' | r] t]; cbn in *.
  - specialize (IH s'). destruct (drive step s' later) as [r t']. cbn in *.
    now apply only_app.
  - exact Hstep.
Qed.

Lemma only_await_settled r fs : only p (snd r) -> only p (trace_of (await_settled r fs)).
Proof.
  intros H. unfold await_settled. destruct (fst r) as [[| e | e] |]; exact H.
Qed.
End Download.
End Only.

(** Programs built from [bind], [emit], [ret], [throw], [modify] and case
    distinctions. *)
Ltac only_tac :=
  repeat first
    [ apply only_ret | apply only_throw | apply only_modify
    | apply only_emit; first [reflexivity | apply String.eqb_refl | solve [auto]]
    | apply only_bind; [| intros ? ?]
    | match goal with
      | |- only _ (trace_of ((match ?x with _ => _ end) _)) => destruct x
      | |- only _ (trace_of ((if ?x then _ else _) _)) => destruct x
      end ].

Section OnlyWalk.
Variable env : Env.
Variable p : Event -> bool.
Hypothesis Hp : allows_walk p.

Lemma only_extract_entry o entry fs : only p (trace_of (extract_entry env o entry fs)).
Proof.
  destruct Hp as (? & ? & ? & ? & ? & ?).
  unfold extract_entry, mkdir, openReadStream, createWriteStream, pipe. only_tac.
Qed.

Lemma only_for_await o zip : forall fs,
  only p (trace_of (for_await zip (extract_entry env o) fs)).
Proof.
  induction zip as [|entry rest IH]; intros fs; cbn [for_await]; [constructor |].
  destruct (fault entry); try apply only_throw;
    (apply only_bind; [apply only_extract_entry | intros; apply IH]).
Qed.

Lemma only_entry_walk o zip fs : only p (trace_of (entry_walk env o zip fs)).
Proof.
  destruct Hp as (? & ? & ? & ? & ? & ?).
  unfold entry_walk. apply only_finally.
  - apply only_try_catch; [apply only_for_await |].
    intros. unfold console_error. now apply only_emit.
  - intros. unfold zip_close. only_tac.
Qed.
End OnlyWalk.

(** ** Removal before extraction *)






Section Removal.
Variable env : Env.

Lemma trace_uncompress fmt src dest fs :
  trace_of (uncompress env fmt src dest fs) = [EvUncompress fmt src dest].
Proof. unfold uncompress. cbn. destruct (unpack env fmt src); reflexivity. Qed.


End Removal.

Section Codec.
Variable env : Env.

Lemma only_uncompress p fmt src dest fs :
  p (EvUncompress fmt src dest) = true ->
  only p (trace_of (uncompress env fmt src dest fs)).
Proof. intros H. rewrite trace_uncompress. repeat constructor. exact H. Qed.

End Codec.

Lemma trace_rm p fs : trace_of (rm p fs) = [EvRm p].
Proof. reflexivity. Qed.

Lemma outcome_rm p fs : outcome_of (rm p fs) = Fulfilled tt.
Proof. reflexivity. Qed.

Lemma trace_rename src dst fs : trace_of (rename src dst fs) = [EvRename src dst].
Proof.
  unfold rename. rewrite trace_bind. cbn.
  destruct (existsb (at_or_below src) fs); [| reflexivity]. cbn.
  destruct (existsb (Path.below dst) fs); reflexivity.
Qed.

Lemma trace_exec env command fs :
  trace_of (exec env command fs) = [EvExec command; EvConsoleError (patch_error env)].
Proof. reflexivity. Qed.

Section HeadersHit.
Variable env : Env.

Lemma getNodeHeaders_hit_trace o fs :
  cache_hit env Headers o fs = true ->
  exists n,
    trace_of (getNodeHeaders env o fs) =
    EvUncompress Tgz (locate (cwd env) Headers o) (cacheDir o) ::
    firstn n
      [EvRm (nodeDir (cwd env) o);
       EvRename (resolve env [cacheDir o; "node"]) (nodeDir (cwd env) o);
       EvExec (patch_command env o);
       EvConsoleError (patch_error env)].
Proof.
  unfold cache_hit. intros H. apply andb_true_iff in H as [Hc He].
  unfold getNodeHeaders, locate, nodeDir, resolve in *. cbn [archive_name] in *.
  rewrite Hc. rewrite !trace_bind.
  cbn [ret trace_of outcome_of fs_of fst snd app existsSync]. rewrite He.
  rewrite !trace_bind, trace_uncompress, trace_rm, outcome_rm, trace_rename, trace_exec.
  destruct (outcome_of (uncompress _ _ _ _ _)); try (now exists 0).
  destruct (outcome_of (rename _ _ _)); try (now exists 2).
  now exists 4.
Qed.
End HeadersHit.

(** ** The file system *)

Lemma prefix_app_intro (a b : string) : String.prefix a (a +:+ b) = true.
Proof.
  induction a as [|c a IH]; cbn; [now destruct b |].
  destruct (ascii_dec c c); [exact IH | contradiction].
Qed.

Lemma prefix_app_elim (a s : string) :
  String.prefix a s = true -> exists w, s = a +:+ w.
Proof.
  revert s. induction a as [|c a IH]; intros s H; [now exists s |].
  destruct s as [|x s]; cbn in H; [discriminate |].
  destruct (ascii_dec c x) as [<- |]; [| discriminate].
  destruct (IH _ H) as [w ->]. now exists w.
Qed.

Lemma at_or_below_trans (p q r : string) :
  at_or_below p q = true -> at_or_below q r = true -> at_or_below p r = true.
Proof.
  unfold at_or_below, Path.below. rewrite !orb_true_iff, !String.eqb_eq.
  intros [-> | Hq] [-> | Hr]; auto.
  right. apply prefix_app_elim in Hq as [w ->]. apply prefix_app_elim in Hr as [w' ->].
  rewrite (app_assoc_s ((p +:+ "/") +:+ w)), (app_assoc_s (p +:+ "/")).
  apply prefix_app_intro.
Qed.

(** After [rm(p)], nothing at or below [p] exists. *)
Lemma fs_exists_remove (fs : FS) (p q : string) :
  at_or_below p q = true -> fs_exists (fs_remove fs p) q = false.
Proof.
  intros Hq. unfold fs_exists, fs_remove.
  induction fs as [|r fs IH]; [reflexivity |]. cbn [filter].
  destruct (at_or_below p r) eqn:Hr; cbn [negb]; [exact IH |].
  cbn [existsb]. rewrite IH, orb_false_r.
  destruct (at_or_below q r) eqn:Hqr; [| reflexivity].
  now rewrite (at_or_below_trans _ _ _ Hq Hqr) in Hr.
Qed.

Lemma at_or_below_refl (p : string) : at_or_below p p = true.
Proof. unfold at_or_below. now rewrite String.eqb_refl. Qed.

(** ** C1: removal before extraction *)


Section HeadersHitCalls.
Variable env : Env.



End HeadersHitCalls.



(** ** C2: the entry walk *)

(** C2 as stated fails: after the first entry fails, the second is never
    visited. *)
Lemma entry_walk_abandons_later_entries :
  ~ walk_survives_failure darwin_host osx_arm64 [unwritable_dir; credits_file] [].
Proof.
  intros H.
  destruct (H [] unwritable_dir [credits_file] "EACCES" eq_refl eq_refl) as (_ & _ & H3).
  specialize (H3 credits_file (or_introl eq_refl) eq_refl).
  cbn in H3. destruct H3 as [H3 | [H3 | [H3 | []]]]; discriminate H3.
Qed.

Section EntryWalk.
Variable env : Env.
Variable o : GetOptions.

Lemma extract_entry_ok entry fs :
  entry_fails entry = None ->
  outcome_of (extract_entry env o entry fs) = Fulfilled tt /\
  (forall e, fault entry <> ReadEntryFault e).
Proof.
  unfold entry_fails, extract_entry. intros H. split.
  - destruct (Js.endsWith (filename entry) "/"), (fault entry) eqn:F;
      try discriminate H;
      unfold mkdir, openReadStream, pipe, createWriteStream;
      try rewrite F; reflexivity.
  - intros e F. rewrite F in H. discriminate H.
Qed.

Lemma extract_entry_fails entry e fs :
  entry_fails entry = Some e -> (forall e', fault entry <> ReadEntryFault e') ->
  outcome_of (extract_entry env o entry fs) = Rejected e.
Proof.
  unfold entry_fails, extract_entry. intros H Hr.
  destruct (Js.endsWith (filename entry) "/"), (fault entry) eqn:F;
    try discriminate H; try (now elim (Hr e0)); injection H as ->;
    unfold mkdir, openReadStream, pipe, createWriteStream;
    try rewrite F; cbn [entry_opens];
    try match goal with |- context [if ?b then _ else _] => destruct b end;
    reflexivity.
Qed.

Lemma for_await_cons entry rest fs :
  (forall e, fault entry <> ReadEntryFault e) ->
  for_await (entry :: rest) (extract_entry env o) fs =
  (extract_entry env o entry ;; for_await rest (extract_entry env o)) fs.
Proof.
  intros H. cbn [for_await]. destruct (fault entry); try reflexivity.
  now elim (H e).
Qed.

(** The failing entry is not a read fault: its loop body runs and rejects. *)
Ltac body_rejects :=
  match goal with
  | F : fault ?bad = _, Hbad : entry_fails ?bad = Some ?e |- context [?fs] =>
      assert (Hr : forall e', fault bad <> ReadEntryFault e')
        by (rewrite F; discriminate);
      rewrite !for_await_cons by exact Hr;
      pose proof (extract_entry_fails bad e fs Hbad Hr) as Hout;
      unfold bind, outcome_of in *;
      destruct (extract_entry env o bad fs) as [[r fs1] t1];
      cbn in Hout; subst r; split; reflexivity
  end.

(** The walk over an archive whose first failing entry is [bad] is the walk
    over the archive cut after [bad], and it rejects. *)
Lemma for_await_fails pre bad post e :
  Forall (fun x => entry_fails x = None) pre -> entry_fails bad = Some e ->
  forall fs,
    for_await (pre ++ bad :: post) (extract_entry env o) fs =
    for_await (pre ++ [bad]) (extract_entry env o) fs /\
    outcome_of (for_await (pre ++ [bad]) (extract_entry env o) fs) = Rejected e.
Proof.
  intros Hpre Hbad. induction Hpre as [|x pre Hx Hpre IH]; intros fs; cbn [app].
  - destruct (fault bad) eqn:F.
    + unfold entry_fails in Hbad. rewrite F in Hbad. discriminate.
    + unfold entry_fails in Hbad. rewrite F in Hbad. injection Hbad as ->.
      cbn [for_await]. rewrite F. split; reflexivity.
    + body_rejects.
    + body_rejects.
    + body_rejects.
  - destruct (extract_entry_ok x fs Hx) as [Hout Hr].
    rewrite !for_await_cons by exact Hr.
    unfold bind, outcome_of in *.
    destruct (extract_entry env o x fs) as [[r fs1] t1]. cbn in Hout. subst r.
    destruct (IH fs1) as [E1 E2]. rewrite E1.
    destruct (for_await (pre ++ [bad]) (extract_entry env o) fs1) as [[r fs2] t2].
    split; [reflexivity | exact E2].
Qed.
End EntryWalk.

(** Where the walk stops decides what [zip.close()] answers. *)
Lemma close_answer_at (pre : list ZipEntry) (bad : ZipEntry) (post : list ZipEntry) (e : Err) :
  Forall (fun x => entry_fails x = None) pre ->
  entry_fails bad = Some e ->
  close_answer (pre ++ bad :: post) = closing_at bad.
Proof.
  intros Hpre Hbad. induction Hpre as [|x pre Hx Hpre IH]; cbn [app close_answer].
  - unfold entry_fails, closing_at in *.
    destruct (fault bad); try discriminate Hbad; try reflexivity;
      destruct (Js.endsWith (filename bad) "/"); try discriminate Hbad; reflexivity.
  - unfold entry_fails in Hx.
    destruct (fault x); try discriminate Hx; try exact IH;
      destruct (Js.endsWith (filename x) "/"); try discriminate Hx; exact IH.
Qed.

Lemma close_answer_none (zip : list ZipEntry) :
  Forall (fun x => entry_fails x = None) zip -> close_answer zip = None.
Proof.
  intros H. induction H as [|x zip Hx H IH]; [reflexivity |]. cbn [close_answer].
  unfold entry_fails in Hx.
  destruct (fault x); try discriminate Hx; try exact IH;
    destruct (Js.endsWith (filename x) "/"); try discriminate Hx; exact IH.
Qed.

(** C2, amended.  When an entry fails, the error is logged and
    [zip.close()] is still called; the walk ends at the failing entry: the
    calls made are those of the walk over the archive cut after that entry,
    followed by [console.error] and [zip.close], whatever entries come
    later.  The error of the entry does not reach the caller: the operation
    ends as [zip.close()] does, fulfilled when the archive closes, rejected
    with the error of [zip.close()] when the archive refuses to close
    because the failing entry is still being read. *)
Theorem entry_walk_stops_at_failure (env : Env) (o : GetOptions)
  (pre : list ZipEntry) (bad : ZipEntry) (post : list ZipEntry) (e : Err) (fs : FS) :
  Forall (fun x => entry_fails x = None) pre ->
  entry_fails bad = Some e ->
  entry_walk env o (pre ++ bad :: post) fs =
  (closed_with (closing_at bad),
   fs_of (for_await (pre ++ [bad]) (extract_entry env o) fs),
   trace_of (for_await (pre ++ [bad]) (extract_entry env o) fs) ++
   [EvConsoleError (Some e); EvZipClose]).
Proof.
  intros Hpre Hbad.
  destruct (for_await_fails env o pre bad post e Hpre Hbad fs) as [E1 E2].
  unfold entry_walk, finally, try_catch.
  rewrite E1, (close_answer_at pre bad post e Hpre Hbad).
  unfold outcome_of, fs_of, trace_of in *.
  destruct (for_await (pre ++ [bad]) (extract_entry env o) fs) as [[r fs1] t1].
  cbn in E2. subst r. unfold zip_close, console_error, bind, emit, throw, ret.
  destruct (closing_at bad); cbn; now rewrite <- app_assoc.
Qed.

(** A directory that cannot be created, followed by a file: the archive
    closes.  A file whose write fails mid-read, followed by a file: the
    archive refuses to close. *)
Lemma entry_walk_stops_at_failure_witness :
  entry_walk darwin_host osx_arm64 ([] ++ unwritable_dir :: [credits_file]) [] =
  (Fulfilled tt, [],
   [EvMkdir "/work/cache/nwjs.app"] ++ [EvConsoleError (Some "EACCES"); EvZipClose]) /\
  entry_walk darwin_host osx_arm64 ([] ++ unwritable_file :: [credits_file]) [] =
  (Rejected "Cannot close while reading in progress",
   ["/work/cache/nwjs.app/nwjs"; "/work/cache/nwjs.app"],
   [EvMkdir "/work/cache/nwjs.app"; EvOpenReadStream "nwjs.app/nwjs";
    EvCreateWriteStream "/work/cache/nwjs.app/nwjs";
    EvPipe "nwjs.app/nwjs" "/work/cache/nwjs.app/nwjs"] ++
   [EvConsoleError (Some "ENOSPC"); EvZipClose]).
Proof.
  split.
  - apply (entry_walk_stops_at_failure darwin_host osx_arm64 [] unwritable_dir
             [credits_file] "EACCES" []).
    + constructor.
    + reflexivity.
  - apply (entry_walk_stops_at_failure darwin_host osx_arm64 [] unwritable_file
             [credits_file] "ENOSPC" []).
    + constructor.
    + reflexivity.
Defined.

(** ** C3: a cache hit skips the network *)

Lemma In_firstn {A} (x : A) (n : nat) (l : list A) : In x (firstn n l) -> In x l.
Proof.
  intros H. rewrite <- (firstn_skipn n l). apply in_or_app. now left.
Qed.

Section CacheHit.
Variable env : Env.
Variable o : GetOptions.
Variable fs : FS.

Lemma cache_hit_elim k :
  cache_hit env k o fs = true ->
  cache o = true /\ fs_exists fs (Path.resolve (cwd env) [cacheDir o; archive_name k o]) = true.
Proof. unfold cache_hit, locate. intros H. now apply andb_true_iff in H. Qed.

Lemma getNwjs_hit_trace :
  cache_hit env Runtime o fs = true ->
  trace_of (getNwjs env o fs) =
  [EvRm (nwDir (cwd env) o);
   EvUncompress (format_of o) (locate (cwd env) Runtime o) (cacheDir o)].
Proof.
  intros H. apply cache_hit_elim in H as [Hc He]. cbn [archive_name] in He.
  unfold getNwjs, locate, nwDir, resolve. cbn [archive_name].
  rewrite Hc, !trace_bind.
  cbn [ret trace_of outcome_of fs_of fst snd app existsSync]. rewrite He.
  now rewrite trace_bind, trace_rm, outcome_rm, trace_uncompress.
Qed.

Lemma getFfmpeg_hit_trace :
  cache_hit env Codec o fs = true ->
  trace_of (getFfmpeg env o fs) =
  [EvUncompress Zip (locate (cwd env) Codec o) (nwDir (cwd env) o)].
Proof.
  intros H. apply cache_hit_elim in H as [Hc He]. cbn [archive_name] in He.
  unfold getFfmpeg, locate, nwDir, resolve. cbn [archive_name].
  rewrite Hc, !trace_bind.
  cbn [ret trace_of outcome_of fs_of fst snd app existsSync]. rewrite He.
  now rewrite trace_uncompress.
Qed.
End CacheHit.



(** ** C7 and C10: the requests of a download *)

Lemma requests_app (a b : list Event) : requests (a ++ b) = requests a ++ requests b.
Proof. unfold requests. apply flat_map_app. Qed.

Lemma requests_none (t : list Event) : only no_request t -> requests t = [].
Proof.
  induction 1 as [|ev t Hev _ IH]; [reflexivity |].
  destruct ev; try discriminate Hev; exact IH.
Qed.

(** Once the first response has arrived, no further request is issued. *)
Lemma drive_two_no_more_requests (follow : bool) (events : list NetEvent) :
  forall s, stage s <> AwaitFirstResponse ->
            requests (snd (drive (two_request_step follow) s events)) = [].
Proof.
  induction events as [|ev later IH]; intros s Hs; [reflexivity |].
  cbn [drive].
  destruct (two_request_step follow s ev) as [[s' | r] t] eqn:E.
  - assert (requests t = [] /\ stage s' <> AwaitFirstResponse) as [Ht Hs'].
    { unfold two_request_step, on_body in E.
      destruct ev, (stage s) eqn:Es; try congruence;
        injection E as <- <-; cbn; rewrite ?Es; split; congruence. }
    specialize (IH s' Hs'). destruct (drive _ s' later) as [r t']. cbn [fst snd] in *.
    now rewrite requests_app, Ht, IH.
  - cbn [fst snd]. unfold two_request_step, on_body in E.
    destruct ev, (stage s) eqn:Es; try congruence; injection E as <- <-; reflexivity.
Qed.

(** A single-request download issues no request of its own. *)
Lemma drive_one_no_requests (events : list NetEvent) :
  forall s, requests (snd (drive one_request_step s events)) = [].
Proof.
  induction events as [|ev later IH]; intros s; [reflexivity |].
  cbn [drive].
  destruct (one_request_step s ev) as [[s' | r] t] eqn:E.
  - assert (requests t = []) as Ht.
    { unfold one_request_step, on_body in E.
      destruct ev, (stage s); try discriminate E; injection E as <- <-; reflexivity. }
    specialize (IH s'). destruct (drive _ s' later) as [r t']. cbn [fst snd] in *.
    now rewrite requests_app, Ht, IH.
  - cbn [fst snd]. unfold one_request_step, on_body in E.
    destruct ev, (stage s); try congruence; injection E as <- <-; reflexivity.
Qed.

Lemma requests_await_settled r fs : requests (trace_of (await_settled r fs)) = requests (snd r).
Proof. unfold await_settled. now destruct (fst r) as [[| e | e] |]. Qed.

Lemma trace_createWriteStream p opens fs :
  trace_of (createWriteStream p opens fs) = [EvCreateWriteStream p].
Proof. now destruct opens. Qed.

Lemma outcome_createWriteStream p opens fs :
  outcome_of (createWriteStream p opens fs) = Fulfilled tt.
Proof. now destruct opens. Qed.

Lemma trace_emit ev fs : trace_of (emit ev fs) = [ev].
Proof. reflexivity. Qed.

Lemma outcome_emit ev fs : outcome_of (emit ev fs) = Fulfilled tt.
Proof. reflexivity. Qed.

Section Requests.
Variable env : Env.
Variable o : GetOptions.

Lemma extract_nwjs_no_requests out fs :
  only no_request (trace_of (extract_nwjs env o out fs)).
Proof.
  unfold extract_nwjs. apply only_bind; [unfold rm; only_tac |]. intros _ fs1.
  destruct ((platform o =? "osx") && (PLATFORM env =? "darwin")).
  - unfold yauzl_open. apply only_bind; [only_tac |]. intros zip fs2.
    apply only_entry_walk. repeat split; reflexivity.
  - now apply only_uncompress.
Qed.

(** What the existence test answers once the [cache === false] removal has
    run. *)
Lemma miss_after_invalidate k fs :
  cache_hit env k o fs = false ->
  fs_exists (if cache o then fs else fs_remove fs (locate (cwd env) k o))
            (locate (cwd env) k o) = false.
Proof.
  unfold cache_hit. destruct (cache o); cbn; [auto |].
  intros _. apply fs_exists_remove, at_or_below_refl.
Qed.

Lemma requests_prelude (p : string) fs :
  requests (trace_of ((if cache o then ret tt else rm p) fs)) = [] /\
  outcome_of ((if cache o then ret tt else rm p) fs) = Fulfilled tt /\
  fs_of ((if cache o then ret tt else rm p) fs) = (if cache o then fs else fs_remove fs p).
Proof. destruct (cache o); repeat split; reflexivity. Qed.

Lemma getNwjs_miss_requests fs :
  cache_hit env Runtime o fs = false ->
  requests (trace_of (getNwjs env o fs)) =
  Some (nwjs_url o) ::
  requests (snd (drive (two_request_step (is_redirecting_mirror o))
                       (start (nwjs_url o)) (network env Runtime))).
Proof.
  intros Hmiss. apply miss_after_invalidate in Hmiss.
  unfold locate in Hmiss. cbn [archive_name] in Hmiss.
  unfold getNwjs, resolve.
  set (out := Path.resolve (cwd env) [cacheDir o; nwjs_archive_name o]) in *.
  destruct (requests_prelude out fs) as (R0 & O0 & F0).
  rewrite trace_bind, requests_app, R0, O0, F0. cbn [app].
  rewrite trace_bind. cbn [existsSync trace_of outcome_of fs_of fst snd app].
  rewrite Hmiss.
  rewrite trace_bind, trace_createWriteStream, outcome_createWriteStream.
  rewrite trace_bind, trace_emit, outcome_emit.
  rewrite trace_bind, !requests_app, requests_await_settled.
  cbn [requests flat_map app]. f_equal.
  rewrite <- app_nil_r. f_equal.
  destruct (outcome_of (await_settled _ _)); try reflexivity.
  apply requests_none, extract_nwjs_no_requests.
Qed.
End Requests.

(** C7: when the runtime archive has to be fetched and the first response
    arrives, exactly two requests are issued.  For the two redirecting
    mirrors the second one goes to the [location] header of the first
    response; for the default host it repeats the constructed URL. *)
Theorem redirect_following (env : Env) (o : GetOptions) (fs : FS)
  (h : ResponseHeaders) (later : list NetEvent) :
  cache_hit env Runtime o fs = false ->
  network env Runtime = Response h :: later ->
  (is_redirecting_mirror o = true ->
   requests (trace_of (getNwjs env o fs)) = [Some (nwjs_url o); location h]) /\
  (downloadUrl o = "https://dl.nwjs.io" ->
   requests (trace_of (getNwjs env o fs)) = [Some (nwjs_url o); Some (nwjs_url o)]).
Proof.
  intros Hmiss Hnet.
  rewrite (getNwjs_miss_requests env o fs Hmiss), Hnet.
  cbn [drive two_request_step start stage url chunks].
  split.
  - intros Hm. rewrite Hm.
    pose proof (drive_two_no_more_requests true later
                  {| stage := AwaitSecondResponse; url := location h; chunks := 0 |}) as H.
    destruct (drive _ _ later) as [r t]. cbn [fst snd] in *.
    rewrite requests_app, H by discriminate. reflexivity.
  - intros Hd. unfold is_redirecting_mirror. rewrite Hd. cbn [String.eqb Ascii.eqb Bool.eqb orb].
    pose proof (drive_two_no_more_requests false later
                  {| stage := AwaitSecondResponse; url := Some (nwjs_url o); chunks := 0 |}) as H.
    destruct (drive _ _ later) as [r t]. cbn [fst snd] in *.
    rewrite requests_app, H by discriminate. reflexivity.
Qed.

(** A fetch through [npmmirror.com] and a fetch from the default host. *)
Lemma redirect_following_witness :
  requests (trace_of (getNwjs linux_host linux_npmmirror [])) =
    [Some (nwjs_url linux_npmmirror); Some "https://cdn.example/nw.zip"] /\
  requests (trace_of (getNwjs linux_host linux_normal [])) =
    [Some (nwjs_url linux_normal); Some (nwjs_url linux_normal)].
Proof.
  split.
  - apply (proj1 (redirect_following linux_host linux_npmmirror [] redirecting _
                    eq_refl eq_refl)).
    reflexivity.
  - apply (proj2 (redirect_following linux_host linux_normal [] redirecting _
                    eq_refl eq_refl)).
    reflexivity.
Defined.

Section HeadersRequests.
Variable env : Env.
Variable o : GetOptions.

Lemma getNodeHeaders_miss_requests fs :
  cache_hit env Headers o fs = false ->
  requests (trace_of (getNodeHeaders env o fs)) = [Some (headers_url o)].
Proof.
  intros Hmiss. apply (miss_after_invalidate env o) in Hmiss.
  unfold locate in Hmiss. cbn [archive_name] in Hmiss.
  unfold getNodeHeaders, resolve.
  set (out := Path.resolve (cwd env) [cacheDir o; headers_archive_name o]) in *.
  destruct (requests_prelude o out fs) as (R0 & O0 & F0).
  rewrite trace_bind, requests_app, R0, O0, F0. cbn [app].
  rewrite trace_bind. cbn [existsSync trace_of outcome_of fs_of fst snd app].
  rewrite Hmiss.
  rewrite trace_bind, trace_createWriteStream, outcome_createWriteStream.
  rewrite trace_bind, trace_emit, outcome_emit.
  rewrite trace_bind, !requests_app, requests_await_settled, drive_one_no_requests.
  cbn [requests flat_map app]. f_equal.
  destruct (outcome_of (await_settled _ _)); try reflexivity.
  rewrite trace_bind, trace_uncompress.
  destruct (outcome_of (uncompress _ _ _ _ _)); try reflexivity.
  now rewrite trace_rename.
Qed.
End HeadersRequests.

Lemma node_dir_name_eq (o : GetOptions) :
  node_dir_name o = "node-v" +:+ version o +:+ target_suffix (platform o) (arch o) "".
Proof.
  unfold node_dir_name, target_suffix. now rewrite app_empty_r.
Qed.

Lemma node_dir_name_simple (o : GetOptions) :
  valid_target o = true -> simple_name (node_dir_name o) = true.
Proof.
  intros H. destruct (valid_target_parts o H) as (Hv & Hf & Hp & Ha).
  pose proof (valid_version_no_sep _ Hv) as Hns.
  pose proof (target_suffix_no_sep _ _ "" Hp Ha (or_intror (or_intror eq_refl))) as Hs.
  unfold simple_name. rewrite node_dir_name_eq.
  unfold no_sep in *. rewrite !all_chars_app, Hns, Hs. reflexivity.
Qed.

Lemma node_dir_name_inj (o1 o2 : GetOptions) :
  valid_target o1 = true -> valid_target o2 = true ->
  node_dir_name o1 = node_dir_name o2 ->
  version o1 = version o2 /\ platform o1 = platform o2 /\ arch o1 = arch o2.
Proof.
  intros H1 H2 H.
  destruct (valid_target_parts o1 H1) as (Hv1 & Hf1 & Hp1 & Ha1).
  destruct (valid_target_parts o2 H2) as (Hv2 & Hf2 & Hp2 & Ha2).
  rewrite !node_dir_name_eq in H. apply (app_inv_head_s "node-v") in H.
  exact (version_suffix_inj _ _ _ _ _ _ _ _ Hp1 Ha1 Hp2 Ha2
           (or_intror (or_intror eq_refl)) (or_intror (or_intror eq_refl)) H).
Qed.

(** C10: the headers are fetched from a URL built from the version alone.
    Two option sets with the same version have the same headers URL, and a
    headers pipeline that has to fetch issues exactly one request, to that
    URL, whatever the platform and the architecture are; yet for valid
    targets under one cache directory that differ in platform or
    architecture, the archive paths differ and so do the renamed
    directories. *)
Theorem headers_url_ignores_platform_arch (env : Env) (o1 o2 : GetOptions) (fs1 fs2 : FS) :
  version o1 = version o2 ->
  headers_url o1 = headers_url o2 /\
  (cache_hit env Headers o1 fs1 = false -> cache_hit env Headers o2 fs2 = false ->
   requests (trace_of (getNodeHeaders env o1 fs1)) = [Some (headers_url o1)] /\
   requests (trace_of (getNodeHeaders env o2 fs2)) = [Some (headers_url o1)]) /\
  (valid_target o1 = true -> valid_target o2 = true -> cacheDir o1 = cacheDir o2 ->
   platform o1 <> platform o2 \/ arch o1 <> arch o2 ->
   locate (cwd env) Headers o1 <> locate (cwd env) Headers o2 /\
   nodeDir (cwd env) o1 <> nodeDir (cwd env) o2).
Proof.
  intros Hv.
  assert (Hu : headers_url o1 = headers_url o2) by (unfold headers_url; now rewrite Hv).
  split; [exact Hu | split].
  - intros M1 M2. rewrite Hu at 2.
    split; now apply getNodeHeaders_miss_requests.
  - intros V1 V2 Hd Hne. split.
    + intros E. apply (locate_eq_components _ _ _ _ _ V1 V2 Hd) in E.
      destruct E as (_ & _ & Hp & Ha & _). tauto.
    + unfold nodeDir. rewrite Hd. intros E.
      apply resolve_simple_name_inj in E; try (now apply node_dir_name_simple).
      apply node_dir_name_inj in E as (_ & Hp & Ha); tauto.
Qed.

(** The headers for linux/x64 and for win/ia32, same version. *)
Lemma headers_url_ignores_platform_arch_witness :
  headers_url linux_gyp = headers_url win_gyp /\
  (requests (trace_of (getNodeHeaders linux_host linux_gyp [])) =
     [Some (headers_url linux_gyp)] /\
   requests (trace_of (getNodeHeaders linux_host win_gyp [])) =
     [Some (headers_url linux_gyp)]) /\
  (locate "/work" Headers linux_gyp <> locate "/work" Headers win_gyp /\
   nodeDir "/work" linux_gyp <> nodeDir "/work" win_gyp).
Proof.
  destruct (headers_url_ignores_platform_arch linux_host linux_gyp win_gyp [] [] eq_refl)
    as (H1 & H2 & H3).
  split; [exact H1 | split].
  - apply H2; reflexivity.
  - apply H3; try reflexivity. left. discriminate.
Defined.

(** ** The cache test *)

(** The common head of the three pipelines, when the archive is missing
    once the [cache === false] removal has run: what remains is the fetch
    branch, run on the file system without the archive. *)
Lemma cache_miss_branch (c : bool) (p : string) (hit_branch miss_branch : Eff unit) (fs : FS) :
  fs_exists (if c then fs else fs_remove fs p) p = false ->
  trace_of (((if c then ret tt else rm p) ;;
             hit <- existsSync p ;;
             if hit then hit_branch else miss_branch) fs) =
  (if c then [] else [EvRm p]) ++
  trace_of (miss_branch (if c then fs else fs_remove fs p)) /\
  outcome_of (((if c then ret tt else rm p) ;;
               hit <- existsSync p ;;
               if hit then hit_branch else miss_branch) fs) =
  outcome_of (miss_branch (if c then fs else fs_remove fs p)).
Proof.
  intros Hmiss. rewrite trace_bind, outcome_bind.
  assert (H : outcome_of ((if c then ret tt else rm p) fs) = Fulfilled tt /\
              fs_of ((if c then ret tt else rm p) fs) = (if c then fs else fs_remove fs p) /\
              trace_of ((if c then ret tt else rm p) fs) = (if c then [] else [EvRm p]))
    by (destruct c; repeat split; reflexivity).
  destruct H as (-> & -> & ->).
  rewrite trace_bind, outcome_bind.
  cbn [existsSync trace_of outcome_of fs_of fst snd app]. rewrite Hmiss.
  split; reflexivity.
Qed.

(** ** C4: the patch stage of the headers pipeline *)

(** On a cache miss the headers pipeline never runs the patch command. *)
Lemma getNodeHeaders_miss_never_patches (env : Env) (o : GetOptions) (fs : FS) :
  cache_hit env Headers o fs = false ->
  only no_exec (trace_of (getNodeHeaders env o fs)).
Proof.
  intros Hmiss. apply (miss_after_invalidate env o) in Hmiss.
  unfold locate in Hmiss. cbn [archive_name] in Hmiss.
  unfold getNodeHeaders, resolve.
  rewrite (proj1 (cache_miss_branch _ _ _ _ _ Hmiss)).
  apply only_app; [destruct (cache o); repeat constructor |].
  apply only_bind; [unfold createWriteStream; only_tac |]. intros _ fs2.
  apply only_bind; [only_tac |]. intros _ fs3.
  apply only_bind.
  { apply only_await_settled, only_drive. intros.
    apply only_one_request_step. repeat split; reflexivity. }
  intros _ fs4.
  apply only_bind; [now apply only_uncompress |]. intros _ fs5.
  rewrite trace_rename. repeat constructor.
Qed.

Open Scope js_scope.

(** C4 holds on a cache hit only.  A run that fetches the headers
    ([linux_gyp], empty cache) fulfils after the rename and never calls the
    patch command; a run that finds them cached does call it, and fulfils
    even when the command fails, the error being logged. *)
Theorem fetched_headers_are_not_patched :
  (trace_of (getNodeHeaders linux_host linux_gyp []) =
     [EvCreateWriteStream "/work/cache/headers-v0.82.0-linux-x64.tar.gz";
      EvRequest (Some "https://dl.nwjs.io//v0.82.0/nw-headers-v0.82.0.tar.gz");
      EvBarStart (Some 10); EvBarIncrement; EvBarUpdate 4; EvBarIncrement;
      EvBarUpdate 10; EvBarStop;
      EvUncompress Tgz "/work/cache/headers-v0.82.0-linux-x64.tar.gz" "./cache";
      EvRename "/work/cache/node" "/work/cache/node-v0.82.0-linux-x64"] /\
   outcome_of (getNodeHeaders linux_host linux_gyp []) = Fulfilled tt) /\
  (trace_of (getNodeHeaders patch_failing_host linux_gyp cached_headers) =
     [EvUncompress Tgz "/work/cache/headers-v0.82.0-linux-x64.tar.gz" "./cache";
      EvRm "/work/cache/node-v0.82.0-linux-x64";
      EvRename "/work/cache/node" "/work/cache/node-v0.82.0-linux-x64";
      EvExec "patch /work/cache/node-v0.82.0-linux-x64/common.gypi /patches/node_header.patch";
      EvConsoleError (Some "Command failed: patch")] /\
   outcome_of (getNodeHeaders patch_failing_host linux_gyp cached_headers) = Fulfilled tt).
Proof. repeat split; reflexivity. Qed.

Close Scope js_scope.

(** ** C5: relocation of the codec *)

(** The codec pipeline starts only once the runtime pipeline has fulfilled. *)
Lemma codec_follows_runtime (env : Env) (o : GetOptions) (fs : FS) :
  exists rest,
    trace_of (get env o fs) = trace_of (getNwjs env o fs) ++ rest /\
    (outcome_of (getNwjs env o fs) <> Fulfilled tt -> rest = []).
Proof.
  unfold get. rewrite trace_bind. eexists. split; [reflexivity |].
  intros H. destruct (outcome_of (getNwjs env o fs)) as [[] | | |]; congruence.
Qed.

Open Scope js_scope.

(** C5 holds on a cache miss only.  With the codec archive cached
    ([linux_ffmpeg], [cached_codec]) the whole run consists of the runtime
    pipeline followed by one [uncompress] of the codec archive, without
    [replaceFfmpeg]; with an empty cache the codec pipeline does end with
    [replaceFfmpeg]. *)
Theorem cached_codec_is_not_relocated :
  (trace_of (get linux_host linux_ffmpeg (cached_runtime ++ cached_codec)) =
     [EvRm "/work/cache/nwjs-v0.82.0-linux-x64";
      EvUncompress Tgz "/work/cache/nwjs-v0.82.0-linux-x64.tar.gz" "./cache";
      EvUncompress Zip "/work/cache/ffmpeg-v0.82.0-linux-x64.zip"
        "/work/cache/nwjs-v0.82.0-linux-x64"] /\
   outcome_of (get linux_host linux_ffmpeg (cached_runtime ++ cached_codec)) = Fulfilled tt) /\
  trace_of (getFfmpeg linux_host linux_ffmpeg []) =
    [EvCreateWriteStream "/work/cache/ffmpeg-v0.82.0-linux-x64.zip";
     EvRequest (Some (ffmpeg_url linux_ffmpeg));
     EvRequest (Some "https://cdn.example/nw.zip");
     EvBarStart (Some 10); EvBarIncrement; EvBarUpdate 4; EvBarIncrement;
     EvBarUpdate 10; EvBarStop;
     EvUncompress Zip "/work/cache/ffmpeg-v0.82.0-linux-x64.zip"
       "/work/cache/nwjs-v0.82.0-linux-x64";
     EvReplaceFfmpeg "linux" "/work/cache/nwjs-v0.82.0-linux-x64"].
Proof. repeat split; reflexivity. Qed.

Close Scope js_scope.

(** ** C6: the URL of the runtime archive *)

(** For the three hosts the code lists, the URL is the download URL followed
    by the version segment and the archive name; for any other value it is
    the empty string. *)
Lemma nwjs_url_cases (o : GetOptions) :
  (is_known_host o = true ->
   nwjs_url o = downloadUrl o +:+ "/v" +:+ version o +:+ "/" +:+ nwjs_archive_name o) /\
  (is_known_host o = false -> nwjs_url o = "").
Proof.
  unfold nwjs_url. split; intros ->; [| reflexivity].
  unfold nwjs_archive_name, nwjs_dir_name. now rewrite !app_assoc_s.
Qed.

(** C6 fails for a download URL outside the list, such as the mirror of the
    documented example: the request is made with the empty string, which
    does not start with the configured URL. *)
Theorem unlisted_download_url_is_dropped :
  nwjs_url linux_cnpmjs = "" /\
  Js.startsWith (nwjs_url linux_cnpmjs) (downloadUrl linux_cnpmjs) = false /\
  trace_of (getNwjs strict_host linux_cnpmjs []) =
    [EvCreateWriteStream "/work/cache/nwjs-v0.82.0-linux-x64.tar.gz";
     EvRequest (Some "")] /\
  outcome_of (getNwjs strict_host linux_cnpmjs []) = Rejected "Invalid URL".
Proof. repeat split; reflexivity. Qed.

(** ** C8: a write error during the download *)

(** The promise of a two-request download is rejected only with the error of
    a throwing first [getRequest] or of an ['error'] event on one of the two
    responses. *)
Lemma reject_comes_from_a_response (follow : bool) (events : list NetEvent) (e : Err) :
  forall s,
    fst (drive (two_request_step follow) s events) = Some (Reject e) ->
    In (Throws e) events \/ In (FirstResponseError e) events \/ In (BodyError e) events.
Proof.
  induction events as [|ev later IH]; intros s H; [discriminate H |].
  cbn [drive] in H.
  destruct (two_request_step follow s ev) as [[s' | r] t] eqn:E.
  - specialize (IH s'). destruct (drive _ s' later) as [r t']. cbn [fst] in *.
    destruct (IH H) as [? | [? | ?]]; cbn [In]; auto.
  - cbn [fst] in H. injection H as ->.
    unfold two_request_step, on_body in E.
    destruct ev, (stage s); try discriminate E; injection E as <-;
      cbn [In]; auto.
Qed.

(** C8 fails: when the destination stream reports an error while the body
    is piped, no handler rejects the promise; the error is thrown as an
    uncaught exception instead. *)
Theorem write_error_is_not_rejected :
  network disk_full_host Runtime =
    [Response redirecting; Response ten_bytes; Data 4; StreamError "ENOSPC"] /\
  outcome_of (getNwjs disk_full_host linux_normal []) = Uncaught "ENOSPC" /\
  outcome_of (getNwjs disk_full_host linux_normal []) <> Rejected "ENOSPC".
Proof. repeat split; try reflexivity. discriminate. Qed.

(** * Further properties of the pipelines *)

Lemma fs_bind {A B} (m : Eff A) (k : A -> Eff B) (fs : FS) :
  fs_of (bind m k fs) =
  match outcome_of (m fs) with
  | Fulfilled a => fs_of (k a (fs_of (m fs)))
  | _ => fs_of (m fs)
  end.
Proof.
  unfold bind, trace_of, outcome_of, fs_of.
  destruct (m fs) as [[[a | e | e |] fs1] t1]; cbn [fst snd]; try reflexivity.
  now destruct (k a fs1) as [[r fs2] t2].
Qed.

(** The file system the fetch branch starts from. *)
Lemma cache_miss_branch_fs (c : bool) (p : string) (hit_branch miss_branch : Eff unit) (fs : FS) :
  fs_exists (if c then fs else fs_remove fs p) p = false ->
  fs_of (((if c then ret tt else rm p) ;;
          hit <- existsSync p ;;
          if hit then hit_branch else miss_branch) fs) =
  fs_of (miss_branch (if c then fs else fs_remove fs p)).
Proof.
  intros Hmiss. rewrite fs_bind.
  assert (H : outcome_of ((if c then ret tt else rm p) fs) = Fulfilled tt /\
              fs_of ((if c then ret tt else rm p) fs) = (if c then fs else fs_remove fs p))
    by (destruct c; split; reflexivity).
  destruct H as (-> & ->).
  rewrite fs_bind. cbn [existsSync trace_of outcome_of fs_of fst snd]. now rewrite Hmiss.
Qed.

Lemma outcome_await_settled r fs : outcome_of (await_settled r fs) = failure_of (fst r).
Proof. unfold await_settled, failure_of. now destruct (fst r) as [[| e | e] |]. Qed.

Lemma trace_await_settled r fs : trace_of (await_settled r fs) = snd r.
Proof. unfold await_settled. now destruct (fst r) as [[| e | e] |]. Qed.

Lemma fs_await_settled r fs : fs_of (await_settled r fs) = fs.
Proof. unfold await_settled. now destruct (fst r) as [[| e | e] |]. Qed.

(** Every fetch branch starts alike: open the write stream, issue the first
    request, await the download, then run the rest. *)
Lemma fetch_branch (out : string) (opens : bool) (u : string)
  (d : option Settled * list Event) (rest : Eff unit) (fs : FS) :
  let r := (createWriteStream out opens ;; emit (EvRequest (Some u)) ;;
            await_settled d ;; rest) fs in
  let fs1 := if opens then out :: fs else fs in
  trace_of r =
    EvCreateWriteStream out :: EvRequest (Some u) :: snd d ++
    (match fst d with Some Resolve => trace_of (rest fs1) | _ => [] end) /\
  outcome_of r =
    (match fst d with Some Resolve => outcome_of (rest fs1) | x => failure_of x end) /\
  fs_of r =
    (match fst d with Some Resolve => fs_of (rest fs1) | _ => fs1 end).
Proof.
  unfold bind, createWriteStream, emit, modify, ret, await_settled, trace_of, outcome_of,
    fs_of, failure_of.
  destruct opens; cbn; destruct d as [[[| e | e] |] t]; cbn; rewrite ?app_nil_r;
    try (repeat split; reflexivity);
    match goal with |- context [rest ?x] => destruct (rest x) as [[r fs2] t2] end;
    cbn; repeat split; reflexivity.
Qed.

Section Fetching.
Variable env : Env.
Variable o : GetOptions.

(** The three pipelines on a cache miss, in one statement: after the
    optional removal of the archive, the write stream is opened, the first
    request is issued and the download is awaited; only a resolved download
    is followed by more. *)
Lemma pipeline_miss (k : ArtifactKind) (fs : FS) :
  cache_hit env k o fs = false ->
  let out := locate (cwd env) k o in
  let fs0 := if cache o then fs else fs_remove fs out in
  let fs1 := with_archive env k o fs0 in
  let r := pipeline env k o fs in
  let rest := after_download env k o in
    trace_of r =
      (if cache o then [] else [EvRm out]) ++
      EvCreateWriteStream out :: EvRequest (Some (first_url k o)) ::
      snd (download env k o) ++
      (match fst (download env k o) with
       | Some Resolve => trace_of (rest fs1)
       | _ => []
       end) /\
    outcome_of r =
      (match fst (download env k o) with
       | Some Resolve => outcome_of (rest fs1)
       | x => failure_of x
       end) /\
    fs_of r =
      (match fst (download env k o) with
       | Some Resolve => fs_of (rest fs1)
       | _ => fs1
       end).
Proof.
  intros Hmiss. apply (miss_after_invalidate env o) in Hmiss.
  cbv zeta. unfold after_download, with_archive, locate, nwDir, nodeDir in *.
  destruct k; cbn [pipeline archive_name first_url download] in *;
    unfold getNwjs, getFfmpeg, getNodeHeaders, resolve;
    rewrite (proj1 (cache_miss_branch _ _ _ _ _ Hmiss)),
            (proj2 (cache_miss_branch _ _ _ _ _ Hmiss)),
            (cache_miss_branch_fs _ _ _ _ _ Hmiss);
    match goal with
    | |- context [trace_of ((createWriteStream ?out ?opens ;; emit (EvRequest (Some ?u)) ;;
                             await_settled ?d ;; ?rest) ?fs0)] =>
        destruct (fetch_branch out opens u d rest fs0) as (H1 & H2 & H3);
        rewrite H1, H2, H3; repeat split; reflexivity
    end.
Qed.
End Fetching.



(** X2.  A download that does not resolve ends the pipeline there: the
    outcome is the rejection, the uncaught exception or the stall of the
    download, and nothing is removed or extracted after it.  The file opened
    for the archive stays in the cache directory when the destination stream
    could be opened; when it could not, no file is left. *)
Theorem failed_download_leaves_archive (env : Env) (k : ArtifactKind) (o : GetOptions)
  (fs : FS) :
  cache_hit env k o fs = false ->
  fst (download env k o) <> Some Resolve ->
  let out := locate (cwd env) k o in
  let r := pipeline env k o fs in
  outcome_of r = failure_of (fst (download env k o)) /\
  outcome_of r <> Fulfilled tt /\
  trace_of r =
    (if cache o then [] else [EvRm out]) ++
    EvCreateWriteStream out :: EvRequest (Some (first_url k o)) ::
    snd (download env k o) /\
  fs_of r =
    (if stream_opens (network env k) then [out] else []) ++
    (if cache o then fs else fs_remove fs out).
Proof.
  intros Hmiss Hd. cbv zeta.
  destruct (pipeline_miss env o k fs Hmiss) as (Ht & Ho & Hf).
  rewrite Ht, Ho, Hf. unfold with_archive.
  destruct (fst (download env k o)) as [[| e | e] |]; try congruence;
    rewrite app_nil_r; repeat split; try discriminate;
    now destruct (stream_opens (network env k)).
Qed.

(** The disk fills up during the download of the runtime: the file stays.
    The cache directory does not exist: there is no file. *)
Lemma failed_download_leaves_archive_witness :
  (outcome_of (pipeline disk_full_host Runtime linux_normal []) = Uncaught "ENOSPC" /\
   outcome_of (pipeline disk_full_host Runtime linux_normal []) <> Fulfilled tt /\
   trace_of (pipeline disk_full_host Runtime linux_normal []) =
     [] ++
     EvCreateWriteStream "/work/cache/nwjs-v0.82.0-linux-x64.tar.gz" ::
     EvRequest (Some (first_url Runtime linux_normal)) ::
     snd (download disk_full_host Runtime linux_normal) /\
   fs_of (pipeline disk_full_host Runtime linux_normal []) =
     ["/work/cache/nwjs-v0.82.0-linux-x64.tar.gz"] ++ []) /\
  (outcome_of (pipeline no_cache_dir_host Runtime linux_normal []) = Uncaught "ENOENT" /\
   outcome_of (pipeline no_cache_dir_host Runtime linux_normal []) <> Fulfilled tt /\
   trace_of (pipeline no_cache_dir_host Runtime linux_normal []) =
     [] ++
     EvCreateWriteStream "/work/cache/nwjs-v0.82.0-linux-x64.tar.gz" ::
     EvRequest (Some (first_url Runtime linux_normal)) ::
     snd (download no_cache_dir_host Runtime linux_normal) /\
   fs_of (pipeline no_cache_dir_host Runtime linux_normal []) = [] ++ []).
Proof.
  split.
  - apply (failed_download_leaves_archive disk_full_host Runtime linux_normal []).
    + reflexivity.
    + discriminate.
  - apply (failed_download_leaves_archive no_cache_dir_host Runtime linux_normal []).
    + reflexivity.
    + discriminate.
Defined.

Lemma cache_hit_no_requests (env : Env) (k : ArtifactKind) (o : GetOptions) (fs : FS) :
  cache_hit env k o fs = true -> requests (trace_of (pipeline env k o fs)) = [].
Proof.
  intros Hit. destruct k; cbn [pipeline].
  - now rewrite (getNwjs_hit_trace env o fs Hit).
  - now rewrite (getFfmpeg_hit_trace env o fs Hit).
  - destruct (getNodeHeaders_hit_trace env o fs Hit) as [n ->].
    apply requests_none. constructor; [reflexivity |].
    apply Forall_forall. intros ev H. apply In_firstn in H.
    cbn in H. intuition (subst; reflexivity).
Qed.

(** X3.  After a download that did not resolve, a second run with
    [cache = true] is a cache hit exactly when the destination stream of the
    first run could be opened: it then finds the file the first run left and
    issues no request.  When the stream could not be opened the first run
    leaves the file system as it found it. *)
Theorem failed_download_is_next_cache_hit (env : Env) (k : ArtifactKind) (o : GetOptions)
  (fs : FS) :
  cache o = true ->
  fs_exists fs (locate (cwd env) k o) = false ->
  fst (download env k o) <> Some Resolve ->
  cache_hit env k o (fs_of (pipeline env k o fs)) = stream_opens (network env k) /\
  (stream_opens (network env k) = true ->
   requests (trace_of (pipeline env k o (fs_of (pipeline env k o fs)))) = []) /\
  (stream_opens (network env k) = false -> fs_of (pipeline env k o fs) = fs).
Proof.
  intros Hc He Hd.
  assert (Hmiss : cache_hit env k o fs = false) by (unfold cache_hit; now rewrite Hc, He).
  destruct (pipeline_miss env o k fs Hmiss) as (_ & _ & Hf). cbv zeta in Hf.
  assert (Hf' : fs_of (pipeline env k o fs) = with_archive env k o fs).
  { rewrite Hf, Hc. destruct (fst (download env k o)) as [[| e | e] |]; congruence. }
  clear Hf. rename Hf' into Hf. unfold with_archive in Hf.
  assert (Hit : cache_hit env k o (fs_of (pipeline env k o fs)) =
                stream_opens (network env k)).
  { rewrite Hf. unfold cache_hit. rewrite Hc.
    destruct (stream_opens (network env k)); cbn; [now rewrite at_or_below_refl | exact He]. }
  split; [exact Hit |]. split.
  - intros Ho. apply cache_hit_no_requests. now rewrite Hit.
  - intros Ho. now rewrite Hf, Ho.
Qed.

(** A second run after the disk filled up during the first; a run without
    a cache directory. *)
Lemma failed_download_is_next_cache_hit_witness :
  (cache_hit disk_full_host Runtime linux_normal
     (fs_of (pipeline disk_full_host Runtime linux_normal [])) = true /\
   (true = true ->
    requests (trace_of (pipeline disk_full_host Runtime linux_normal
                          (fs_of (pipeline disk_full_host Runtime linux_normal [])))) = []) /\
   (true = false -> fs_of (pipeline disk_full_host Runtime linux_normal []) = [])) /\
  (cache_hit no_cache_dir_host Runtime linux_normal
     (fs_of (pipeline no_cache_dir_host Runtime linux_normal [])) = false /\
   (false = true ->
    requests (trace_of (pipeline no_cache_dir_host Runtime linux_normal
                          (fs_of (pipeline no_cache_dir_host Runtime linux_normal [])))) = []) /\
   (false = false -> fs_of (pipeline no_cache_dir_host Runtime linux_normal []) = [])).
Proof.
  split.
  - apply (failed_download_is_next_cache_hit disk_full_host Runtime linux_normal []).
    + reflexivity.
    + reflexivity.
    + discriminate.
  - apply (failed_download_is_next_cache_hit no_cache_dir_host Runtime linux_normal []).
    + reflexivity.
    + reflexivity.
    + discriminate.
Defined.

(** ** How many requests a pipeline issues *)

Lemma drive_two_at_most_one_request (follow : bool) (events : list NetEvent) :
  forall s, length (requests (snd (drive (two_request_step follow) s events))) <= 1.
Proof.
  induction events as [|ev later IH]; intros s; [cbn; lia |].
  destruct (stage s) eqn:Es.
  2,3: rewrite drive_two_no_more_requests by congruence; cbn; lia.
  cbn [drive].
  destruct (two_request_step follow s ev) as [[s' | r] t] eqn:E.
  - unfold two_request_step in E. rewrite Es in E.
    destruct ev; try discriminate E; injection E as <- <-.
    all: try (specialize (IH s); destruct (drive _ s later) as [r t'];
              cbn [fst snd app] in *; exact IH).
    pose proof (drive_two_no_more_requests follow later
                  {| stage := AwaitSecondResponse;
                     url := if follow then location h else url s;
                     chunks := chunks s |}) as H.
    destruct (drive _ _ later) as [r t']. cbn [fst snd] in *.
    rewrite requests_app, H by discriminate. cbn. lia.
  - unfold two_request_step in E. rewrite Es in E.
    destruct ev; try discriminate E; injection E as <- <-; cbn; lia.
Qed.

Lemma after_download_no_requests (env : Env) (k : ArtifactKind) (o : GetOptions) (fs : FS) :
  only no_request (trace_of (after_download env k o fs)).
Proof.
  destruct k; cbn [after_download].
  - apply extract_nwjs_no_requests.
  - apply only_bind; [now apply only_uncompress |]. intros _ fs1.
    unfold replaceFfmpeg. only_tac.
  - apply only_bind; [now apply only_uncompress |]. intros _ fs1.
    rewrite trace_rename. repeat constructor.
Qed.

(** The requests of a pipeline that has to fetch: the first one, then those
    of the download. *)
Lemma pipeline_miss_requests (env : Env) (k : ArtifactKind) (o : GetOptions) (fs : FS) :
  cache_hit env k o fs = false ->
  requests (trace_of (pipeline env k o fs)) =
  Some (first_url k o) :: requests (snd (download env k o)).
Proof.
  intros Hmiss. destruct (pipeline_miss env o k fs Hmiss) as (Ht & _ & _).
  cbv zeta in Ht. rewrite Ht, requests_app.
  replace (requests (if cache o then [] else [EvRm (locate (cwd env) k o)])) with
    (@nil (option string)) by (now destruct (cache o)).
  cbn [app]. change (requests (?a :: EvRequest ?u :: ?t)) with (u :: requests t).
  rewrite requests_app. f_equal. rewrite <- app_nil_r. f_equal.
  destruct (fst (download env k o)) as [[| e | e] |]; try reflexivity.
  apply requests_none, after_download_no_requests.
Qed.

(** X4.  Whatever the network delivers, a pipeline issues at most two
    requests, and the headers pipeline at most one: a redirect is followed
    once and never again. *)
Theorem at_most_two_requests (env : Env) (k : ArtifactKind) (o : GetOptions) (fs : FS) :
  length (requests (trace_of (pipeline env k o fs))) <= 2 /\
  (k = Headers -> length (requests (trace_of (pipeline env k o fs))) <= 1).
Proof.
  destruct (cache_hit env k o fs) eqn:Hit.
  - rewrite (cache_hit_no_requests env k o fs Hit). cbn. split; lia.
  - rewrite (pipeline_miss_requests env k o fs Hit). cbn [length]. split.
    + destruct k; cbn [download].
      * pose proof (drive_two_at_most_one_request (is_redirecting_mirror o)
                      (network env Runtime) (start (nwjs_url o))). lia.
      * pose proof (drive_two_at_most_one_request true
                      (network env Codec) (start (ffmpeg_url o))). lia.
      * rewrite drive_one_no_requests. cbn. lia.
    + intros ->. cbn [download]. rewrite drive_one_no_requests. cbn. lia.
Qed.

(** The headers pipeline on an empty cache. *)
Lemma at_most_two_requests_witness :
  length (requests (trace_of (pipeline linux_host Headers linux_gyp []))) <= 1.
Proof.
  apply (proj2 (at_most_two_requests linux_host Headers linux_gyp [])). reflexivity.
Defined.

(** X5.  The codec is always fetched from the GitHub release of the
    prebuilt codec, with the redirect followed: when the first response
    arrives, the two requests go to the URL built from version, platform and
    architecture and to the [location] header of that response.  The
    configured download URL and the flavor play no part in it. *)
Theorem codec_fetch_ignores_download_url (env : Env) (o o' : GetOptions) (fs : FS)
  (h : ResponseHeaders) (later : list NetEvent) :
  cache_hit env Codec o fs = false ->
  network env Codec = Response h :: later ->
  version o' = version o -> platform o' = platform o -> arch o' = arch o ->
  requests (trace_of (getFfmpeg env o fs)) = [Some (ffmpeg_url o'); location h].
Proof.
  intros Hmiss Hnet Hv Hp Ha.
  change (getFfmpeg env o fs) with (pipeline env Codec o fs).
  rewrite (pipeline_miss_requests env Codec o fs Hmiss).
  cbn [first_url download]. rewrite Hnet.
  cbn [drive two_request_step start stage url chunks].
  pose proof (drive_two_no_more_requests true later
                {| stage := AwaitSecondResponse; url := location h; chunks := 0 |}) as H.
  destruct (drive _ _ later) as [r t]. cbn [fst snd] in *.
  rewrite requests_app, H by discriminate.
  unfold ffmpeg_url. now rewrite Hv, Hp, Ha.
Qed.

(** The codec for [linux_normal], asked for through the npmmirror mirror. *)
Lemma codec_fetch_ignores_download_url_witness :
  requests (trace_of (getFfmpeg linux_host linux_npmmirror [])) =
  [Some (ffmpeg_url linux_normal); location redirecting].
Proof.
  apply (codec_fetch_ignores_download_url linux_host linux_npmmirror linux_normal []
           redirecting _ eq_refl eq_refl eq_refl eq_refl eq_refl).
Defined.

(** ** The entry walk *)

Section EntryWalkMore.
Variable env : Env.
Variable o : GetOptions.

Lemma extract_entry_outcome entry fs :
  outcome_of (extract_entry env o entry fs) = Fulfilled tt \/
  exists e, outcome_of (extract_entry env o entry fs) = Rejected e.
Proof.
  unfold extract_entry, mkdir, openReadStream, createWriteStream, pipe.
  destruct (Js.endsWith (filename entry) "/"), (fault entry) eqn:F;
    cbn; rewrite ?F; cbn;
    try match goal with |- context [if ?b then _ else _] => destruct b end;
    cbn; eauto.
Qed.

Lemma for_await_outcome zip : forall fs,
  outcome_of (for_await zip (extract_entry env o) fs) = Fulfilled tt \/
  exists e, outcome_of (for_await zip (extract_entry env o) fs) = Rejected e.
Proof.
  induction zip as [|entry rest IH]; intros fs; cbn [for_await]; [now left |].
  assert (H : outcome_of ((extract_entry env o entry ;;
                           for_await rest (extract_entry env o)) fs) = Fulfilled tt \/
              exists e, outcome_of ((extract_entry env o entry ;;
                           for_await rest (extract_entry env o)) fs) = Rejected e).
  { rewrite outcome_bind.
    destruct (extract_entry_outcome entry fs) as [-> | [e ->]]; [apply IH | eauto]. }
  destruct (fault entry); try exact H. right. now exists e.
Qed.

Lemma for_await_never_closes zip : forall fs,
  only not_zip_close (trace_of (for_await zip (extract_entry env o) fs)).
Proof.
  induction zip as [|entry rest IH]; intros fs; cbn [for_await]; [constructor |].
  assert (H : only not_zip_close
                (trace_of ((extract_entry env o entry ;;
                            for_await rest (extract_entry env o)) fs))).
  { apply only_bind; [| intros; apply IH].
    unfold extract_entry, mkdir, openReadStream, createWriteStream, pipe. only_tac. }
  destruct (fault entry); try exact H. constructor.
Qed.
End EntryWalkMore.

(** X6.  Whatever the entries of the archive do, the last call of the entry
    walk, and only that one, is [zip.close()], and the walk ends as that
    call does: fulfilled when the archive closes, rejected with the error of
    [zip.close()] when it does not.  No error of an entry is the outcome of
    the walk. *)
Theorem entry_walk_ends_with_close (env : Env) (o : GetOptions)
  (zip : list ZipEntry) (fs : FS) :
  outcome_of (entry_walk env o zip fs) = closed_with (close_answer zip) /\
  exists t, trace_of (entry_walk env o zip fs) = t ++ [EvZipClose] /\
            ~ In EvZipClose t.
Proof.
  pose proof (for_await_outcome env o zip fs) as Ho.
  pose proof (for_await_never_closes env o zip fs) as Ht.
  unfold entry_walk, finally, try_catch, console_error, zip_close, bind, emit, throw, ret,
    outcome_of, trace_of in *.
  destruct (for_await zip (extract_entry env o) fs) as [[r fs1] t1]. cbn [fst snd] in *.
  assert (Hnot : forall t, only not_zip_close t -> ~ In EvZipClose t).
  { intros t H Hin. unfold only in H. rewrite Forall_forall in H.
    specialize (H _ Hin). discriminate H. }
  destruct Ho as [-> | [e ->]]; destruct (close_answer zip); cbn.
  1,2: split; [reflexivity |]; exists t1; split; [reflexivity | now apply Hnot].
  all: split; [reflexivity |]; exists (t1 ++ [EvConsoleError (Some e)]);
    (split; [now rewrite <- app_assoc |]); apply Hnot; apply Forall_app;
    (split; [exact Ht |]); repeat constructor.
Qed.

Lemma entry_walk_outcome (env : Env) (o : GetOptions) (zip : list ZipEntry) (fs : FS) :
  outcome_of (entry_walk env o zip fs) = closed_with (close_answer zip).
Proof.
  pose proof (for_await_outcome env o zip fs) as Ho.
  unfold entry_walk, finally, try_catch, console_error, zip_close, bind, emit, throw, ret,
    outcome_of in *.
  destruct (for_await zip (extract_entry env o) fs) as [[r fs1] t1]. cbn [fst snd] in *.
  destruct Ho as [-> | [e ->]]; destruct (close_answer zip); reflexivity.
Qed.

(** X7.  When the osx runtime is fetched on a darwin host and the archive
    opens, the error of an entry is not reported to the caller: [getNwjs]
    ends as [zip.close()] does, fulfilled when the archive closes and
    rejected with the error of [zip.close()] when it refuses to close. *)
Theorem entry_errors_do_not_reach_caller (env : Env) (o : GetOptions) (fs : FS)
  (zip : list ZipEntry) :
  platform o = "osx" -> PLATFORM env = "darwin" ->
  cache_hit env Runtime o fs = false ->
  fst (download env Runtime o) = Some Resolve ->
  zip_open env (locate (cwd env) Runtime o) = inr zip ->
  outcome_of (getNwjs env o fs) = closed_with (close_answer zip).
Proof.
  intros Hp Hh Hmiss Hd Hz.
  destruct (pipeline_miss env o Runtime fs Hmiss) as (_ & Ho & _).
  cbv zeta in Ho. cbn [pipeline] in Ho. rewrite Ho, Hd.
  cbn [after_download]. unfold extract_nwjs.
  rewrite Hp, Hh. cbn [String.eqb Ascii.eqb Bool.eqb andb].
  rewrite outcome_bind, outcome_rm, outcome_bind.
  unfold yauzl_open at 1. rewrite outcome_bind, outcome_emit, Hz.
  cbn [ret outcome_of fs_of fst snd]. apply entry_walk_outcome.
Qed.

(** The second entry of the archive of [darwin_zip_host] cannot be written
    and is still being read when the archive is closed. *)
Lemma entry_errors_do_not_reach_caller_witness :
  outcome_of (getNwjs darwin_zip_host osx_arm64 []) =
  Rejected "Cannot close while reading in progress".
Proof.
  apply (entry_errors_do_not_reach_caller darwin_zip_host osx_arm64 []
           [ app_dir;
             {| filename := "nwjs.app/nwjs";
                fault := PipeFault "EIO" true
                           (Some "Cannot close while reading in progress") |};
             {| filename := "credits.html"; fault := NoFault |} ]);
    reflexivity.
Defined.

Section EntryWalkSuccess.
Variable env : Env.
Variable o : GetOptions.

Lemma extract_entry_calls entry fs :
  entry_fails entry = None ->
  trace_of (extract_entry env o entry fs) = entry_calls env o entry /\
  In (resolve env [cacheDir o; filename entry]) (fs_of (extract_entry env o entry fs)).
Proof.
  unfold entry_fails, extract_entry, entry_calls. intros H.
  destruct (Js.endsWith (filename entry) "/"), (fault entry) eqn:F;
    try discriminate H;
    unfold mkdir, openReadStream, pipe, createWriteStream;
    cbn; rewrite ?F; cbn; auto.
Qed.

(** The loop body only adds paths. *)
Lemma extract_entry_keeps entry fs p :
  In p fs -> In p (fs_of (extract_entry env o entry fs)).
Proof.
  unfold extract_entry. intros H.
  destruct (Js.endsWith (filename entry) "/"), (fault entry) eqn:F;
    unfold mkdir, openReadStream, pipe, createWriteStream;
    cbn; rewrite ?F; cbn;
    try match goal with |- context [if ?b then _ else _] => destruct b end;
    cbn; auto.
Qed.

Lemma for_await_keeps zip : forall fs p,
  In p fs -> In p (fs_of (for_await zip (extract_entry env o) fs)).
Proof.
  induction zip as [|entry rest IH]; intros fs p H; cbn [for_await]; [exact H |].
  assert (Hb : In p (fs_of ((extract_entry env o entry ;;
                             for_await rest (extract_entry env o)) fs))).
  { rewrite fs_bind. pose proof (extract_entry_keeps entry fs p H) as Hk.
    destruct (outcome_of (extract_entry env o entry fs)); auto. }
  destruct (fault entry); try exact Hb. exact H.
Qed.

Lemma for_await_all zip :
  Forall (fun x => entry_fails x = None) zip ->
  forall fs,
    outcome_of (for_await zip (extract_entry env o) fs) = Fulfilled tt /\
    trace_of (for_await zip (extract_entry env o) fs) = flat_map (entry_calls env o) zip /\
    forall entry, In entry zip ->
      In (resolve env [cacheDir o; filename entry])
         (fs_of (for_await zip (extract_entry env o) fs)).
Proof.
  induction 1 as [|x zip Hx Hzip IH]; intros fs.
  - repeat split; try reflexivity. intros entry [].
  - destruct (extract_entry_ok env o x fs Hx) as [Hout Hr].
    destruct (extract_entry_calls x fs Hx) as [Htr Hin].
    rewrite for_await_cons by exact Hr.
    rewrite outcome_bind, trace_bind, fs_bind, Hout, Htr.
    destruct (IH (fs_of (extract_entry env o x fs))) as (O & T & F).
    rewrite O, T. repeat split; try reflexivity.
    intros entry [<- | Hentry]; [now apply for_await_keeps | now apply F].
Qed.
End EntryWalkSuccess.

(** X8.  When no entry fails, the entry walk makes, in archive order, one
    [mkdir] per directory entry and [mkdir] of the parent, [openReadStream],
    [createWriteStream] and the pipe per file entry, then closes the archive;
    it fulfils, and the path of every entry exists afterwards. *)
Theorem entry_walk_extracts_every_entry (env : Env) (o : GetOptions)
  (zip : list ZipEntry) (fs : FS) :
  Forall (fun x => entry_fails x = None) zip ->
  outcome_of (entry_walk env o zip fs) = Fulfilled tt /\
  trace_of (entry_walk env o zip fs) = flat_map (entry_calls env o) zip ++ [EvZipClose] /\
  forall entry, In entry zip ->
    fs_exists (fs_of (entry_walk env o zip fs))
              (resolve env [cacheDir o; filename entry]) = true.
Proof.
  intros Hall. destruct (for_await_all env o zip Hall fs) as (O & T & F).
  unfold entry_walk. rewrite (close_answer_none zip Hall).
  unfold finally, try_catch, zip_close, bind, emit, ret, outcome_of, trace_of, fs_of in *.
  destruct (for_await zip (extract_entry env o) fs) as [[r fs1] t1]. cbn [fst snd] in *.
  subst r t1. cbn. repeat split; try reflexivity.
  intros entry Hin. unfold fs_exists. apply existsb_exists.
  exists (resolve env [cacheDir o; filename entry]). split; [now apply F |].
  apply at_or_below_refl.
Qed.

(** A directory entry and a file entry. *)
Lemma entry_walk_extracts_every_entry_witness :
  outcome_of (entry_walk darwin_host osx_arm64 [app_dir; credits_file] []) = Fulfilled tt /\
  trace_of (entry_walk darwin_host osx_arm64 [app_dir; credits_file] []) =
    flat_map (entry_calls darwin_host osx_arm64) [app_dir; credits_file] ++ [EvZipClose] /\
  forall entry, In entry [app_dir; credits_file] ->
    fs_exists (fs_of (entry_walk darwin_host osx_arm64 [app_dir; credits_file] []))
              (resolve darwin_host ["./cache"; filename entry]) = true.
Proof.
  apply (entry_walk_extracts_every_entry darwin_host osx_arm64 [app_dir; credits_file] []).
  repeat constructor.
Defined.

(** ** The choice of the extraction strategy *)





(** ** The decompressor and the archive *)

Lemma endsWith_app (a s : string) : Js.endsWith (a +:+ s) s = true.
Proof.
  induction a as [|c a IH]; cbn [String.append].
  - destruct s; cbn; [reflexivity | now rewrite Ascii.eqb_refl, String.eqb_refl].
  - cbn [Js.endsWith]. rewrite IH. apply orb_true_r.
Qed.

Lemma archive_name_extension (k : ArtifactKind) (o : GetOptions) :
  Js.endsWith (archive_name k o)
    (extension (match k with Runtime => format_of o | Codec => Zip | Headers => Tgz end))
  = true.
Proof.
  destruct k; cbn [archive_name].
  - unfold nwjs_archive_name, archive_ext, format_of.
    destruct (platform o =? "linux"); apply (endsWith_app _ ".tar.gz") || apply (endsWith_app _ ".zip").
  - unfold ffmpeg_archive_name. rewrite <- !app_assoc_s. apply endsWith_app.
  - unfold headers_archive_name. rewrite <- !app_assoc_s. apply endsWith_app.
Qed.

Lemma own_archive_uncompress (env : Env) (k : ArtifactKind) (o : GetOptions)
  (dest : string) (fs : FS) :
  only (own_archive env k o)
    (trace_of (uncompress env
                 (match k with Runtime => format_of o | Codec => Zip | Headers => Tgz end)
                 (locate (cwd env) k o) dest fs)).
Proof.
  apply only_uncompress. cbn [own_archive].
  now rewrite String.eqb_refl, archive_name_extension.
Qed.

(** X10.  Every bulk decompression a pipeline starts reads the archive of
    that pipeline, and the decompressor suits its name: gzip+tar for a name
    ending in [.tar.gz], zip for a name ending in [.zip]. *)
Theorem decompressor_suits_archive (env : Env) (k : ArtifactKind) (o : GetOptions)
  (fs : FS) (fmt : Format) (src dest : string) :
  In (EvUncompress fmt src dest) (trace_of (pipeline env k o fs)) ->
  src = locate (cwd env) k o /\
  Js.endsWith (archive_name k o) (extension fmt) = true.
Proof.
  assert (H : only (own_archive env k o) (trace_of (pipeline env k o fs))).
  { assert (Hd : allows_download (own_archive env k o)) by (repeat split; reflexivity).
    assert (Hw : allows_walk (own_archive env k o)) by (repeat split; reflexivity).
    pose proof (own_archive_uncompress env k o) as Hu.
    destruct k; cbn [pipeline]; unfold getNwjs, getFfmpeg, getNodeHeaders, extract_nwjs;
      unfold locate, nwDir in *; cbn [archive_name] in *; fold (resolve env) in *.
    - apply only_bind; [unfold rm; only_tac |]. intros _ fs1.
      apply only_bind; [constructor |]. intros hit fs2. destruct hit.
      + apply only_bind; [unfold rm; only_tac | intros; apply Hu].
      + apply only_bind; [unfold createWriteStream; only_tac |]. intros _ fs3.
        apply only_bind; [only_tac |]. intros _ fs4.
        apply only_bind.
        { apply only_await_settled, only_drive. intros.
          now apply only_two_request_step. }
        intros _ fs5. apply only_bind; [unfold rm; only_tac |]. intros _ fs6.
        destruct ((platform o =? "osx") && (PLATFORM env =? "darwin")); [| apply Hu].
        unfold yauzl_open. apply only_bind; [only_tac |]. intros zip fs7.
        now apply only_entry_walk.
    - apply only_bind; [unfold rm; only_tac |]. intros _ fs1.
      apply only_bind; [constructor |]. intros hit fs2. destruct hit; [apply Hu |].
      apply only_bind; [unfold createWriteStream; only_tac |]. intros _ fs3.
      apply only_bind; [only_tac |]. intros _ fs4.
      apply only_bind.
      { apply only_await_settled, only_drive. intros.
        now apply only_two_request_step. }
      intros _ fs5. apply only_bind; [apply Hu |]. intros _ fs6.
      unfold replaceFfmpeg. only_tac.
    - apply only_bind; [unfold rm; only_tac |]. intros _ fs1.
      apply only_bind; [constructor |]. intros hit fs2. destruct hit.
      + apply only_bind; [apply Hu |]. intros _ fs3.
        apply only_bind; [unfold rm; only_tac |]. intros _ fs4.
        apply only_bind; [rewrite trace_rename; repeat constructor |]. intros _ fs5.
        rewrite trace_exec. repeat constructor.
      + apply only_bind; [unfold createWriteStream; only_tac |]. intros _ fs3.
        apply only_bind; [only_tac |]. intros _ fs4.
        apply only_bind.
        { apply only_await_settled, only_drive. intros.
          now apply only_one_request_step. }
        intros _ fs5. apply only_bind; [apply Hu |]. intros _ fs6.
        rewrite trace_rename. repeat constructor. }
  intros Hin. unfold only in H. rewrite Forall_forall in H.
  specialize (H _ Hin). cbn [own_archive] in H.
  apply andb_true_iff in H as [H1 H2]. now apply String.eqb_eq in H1.
Qed.

(** The cached linux runtime, unpacked with gzip+tar. *)
Lemma decompressor_suits_archive_witness :
  "/work/cache/nwjs-v0.82.0-linux-x64.tar.gz" = locate "/work" Runtime linux_normal /\
  Js.endsWith (archive_name Runtime linux_normal) (extension Tgz) = true.
Proof.
  apply (decompressor_suits_archive linux_host Runtime linux_normal cached_runtime Tgz
           "/work/cache/nwjs-v0.82.0-linux-x64.tar.gz" "./cache").
  right. left. reflexivity.
Defined.

(** ** The archive path and the extracted directory *)

Lemma nwjs_dir_name_eq (o : GetOptions) :
  nwjs_dir_name o =
  "nwjs" +:+ sdk_infix o +:+ "-v" +:+ version o +:+
  target_suffix (platform o) (arch o) "".
Proof. unfold nwjs_dir_name, target_suffix. now rewrite app_empty_r. Qed.

Lemma nwjs_dir_name_simple (o : GetOptions) :
  valid_target o = true -> simple_name (nwjs_dir_name o) = true.
Proof.
  intros H. destruct (valid_target_parts o H) as (Hv & Hf & Hp & Ha).
  pose proof (valid_version_no_sep _ Hv) as Hns.
  pose proof (target_suffix_no_sep _ _ "" Hp Ha (or_intror (or_intror eq_refl))) as Hs.
  unfold simple_name. rewrite nwjs_dir_name_eq.
  unfold no_sep in *. rewrite !all_chars_app, Hns, Hs.
  destruct (valid_flavor_cases _ Hf) as [E | E]; unfold sdk_infix; rewrite E; reflexivity.
Qed.

Lemma prefix_app_head (a b c : string) :
  String.prefix (a +:+ b) (a +:+ c) = String.prefix b c.
Proof.
  induction a as [|x a IH]; cbn; [reflexivity |].
  destruct (ascii_dec x x); [exact IH | contradiction].
Qed.

Lemma app_dot_neq (a w : string) : (a +:+ String "."%char w =? a) = false.
Proof.
  apply String.eqb_neq. intros H.
  rewrite <- (app_empty_r a) in H at 2. apply app_inv_head_s in H. discriminate H.
Qed.

(** Nothing at or below [d.ext] is at or below [d]. *)
Lemma beside_not_below (d w q : string) :
  at_or_below (d +:+ String "."%char w) q = true -> at_or_below d q = false.
Proof.
  unfold at_or_below, Path.below. rewrite orb_true_iff, String.eqb_eq.
  intros H.
  assert (exists w', q = d +:+ String "."%char w') as [w' ->].
  { destruct H as [-> | H]; [now exists w |].
    apply prefix_app_elim in H as [x ->]. exists (w +:+ "/" +:+ x).
    now rewrite !app_assoc_s. }
  rewrite app_dot_neq, prefix_app_head. reflexivity.
Qed.

Lemma runtime_archive_path (cwd : string) (o : GetOptions) :
  valid_target o = true ->
  locate cwd Runtime o = nwDir cwd o +:+ "." +:+ archive_ext o.
Proof.
  intros Hv. destruct (resolve_simple_name cwd (cacheDir o)) as [base Hb].
  unfold locate, nwDir.
  rewrite (Hb _ (archive_name_simple Runtime o Hv)), (Hb _ (nwjs_dir_name_simple o Hv)).
  cbn [archive_name]. unfold nwjs_archive_name. now rewrite !app_assoc_s.
Qed.

(** X11.  For a valid target the runtime archive lies beside the directory it
    extracts to: its path is the path of that directory followed by a dot and
    the archive extension, so removing the directory leaves the archive. *)
Theorem runtime_archive_beside_directory (cwd : string) (o : GetOptions) :
  valid_target o = true ->
  locate cwd Runtime o = nwDir cwd o +:+ "." +:+ archive_ext o /\
  at_or_below (nwDir cwd o) (locate cwd Runtime o) = false.
Proof.
  intros Hv. split; [now apply runtime_archive_path |].
  rewrite (runtime_archive_path cwd o Hv).
  apply (beside_not_below (nwDir cwd o) (archive_ext o)), at_or_below_refl.
Qed.

Lemma runtime_archive_beside_directory_witness :
  locate "/work" Runtime linux_sdk = nwDir "/work" linux_sdk +:+ "." +:+ archive_ext linux_sdk /\
  at_or_below (nwDir "/work" linux_sdk) (locate "/work" Runtime linux_sdk) = false.
Proof.
  apply (runtime_archive_beside_directory "/work" linux_sdk). reflexivity.
Defined.

(** ** Cache hits *)

(** The common head of the three pipelines on a cache hit. *)
Lemma cache_hit_branch (p : string) (hit_branch miss_branch : Eff unit) (fs : FS) :
  fs_exists fs p = true ->
  ((ret tt ;; hit <- existsSync p ;; if hit then hit_branch else miss_branch) fs) =
  hit_branch fs.
Proof.
  intros He. unfold bind, ret, existsSync. rewrite He.
  destruct (hit_branch fs) as [[r fs1] t1]. reflexivity.
Qed.

Lemma pipeline_hit (env : Env) (k : ArtifactKind) (o : GetOptions) (fs : FS) :
  cache_hit env k o fs = true ->
  pipeline env k o fs =
  match k with
  | Runtime =>
      (rm (nwDir (cwd env) o) ;;
       uncompress env (format_of o) (locate (cwd env) Runtime o) (cacheDir o)) fs
  | Codec => uncompress env Zip (locate (cwd env) Codec o) (nwDir (cwd env) o) fs
  | Headers =>
      (uncompress env Tgz (locate (cwd env) Headers o) (cacheDir o) ;;
       rm (nodeDir (cwd env) o) ;;
       rename (resolve env [cacheDir o; "node"]) (nodeDir (cwd env) o) ;;
       exec env (patch_command env o)) fs
  end.
Proof.
  intros Hit. apply cache_hit_elim in Hit as [Hc He].
  destruct k; cbn [pipeline archive_name] in *;
    unfold getNwjs, getFfmpeg, getNodeHeaders, locate, nwDir, nodeDir, resolve;
    cbn [archive_name]; rewrite Hc; now apply cache_hit_branch.
Qed.

Lemma fs_exists_app (a b : FS) (p : string) :
  fs_exists (a ++ b) p = fs_exists a p || fs_exists b p.
Proof. unfold fs_exists. apply existsb_app. Qed.







(** ** The three pipelines in sequence *)

(** X14.  When the runtime pipeline does not fulfil, [get] ends with it: the
    codec and the headers pipelines are not started, whatever the options. *)
Theorem failed_runtime_ends_get (env : Env) (o : GetOptions) (fs : FS) :
  outcome_of (getNwjs env o fs) <> Fulfilled tt ->
  get env o fs = getNwjs env o fs.
Proof.
  intros H. unfold get, bind, outcome_of in *.
  destruct (getNwjs env o fs) as [[[[] | e | e |] fs1] t1]; cbn [fst] in *;
    congruence.
Qed.

Lemma failed_runtime_ends_get_witness :
  get corrupt_host linux_gyp cached_runtime = getNwjs corrupt_host linux_gyp cached_runtime.
Proof.
  apply (failed_runtime_ends_get corrupt_host linux_gyp cached_runtime).
  vm_compute. discriminate.
Defined.

(** X15.  When the codec is asked for and its pipeline does not fulfil, [get]
    ends with the outcome of the codec pipeline, and its calls are those of
    the runtime pipeline followed by those of the codec pipeline: the headers
    pipeline is not started. *)
Theorem failed_codec_ends_get (env : Env) (o : GetOptions) (fs : FS) :
  ffmpeg o = true ->
  outcome_of (getNwjs env o fs) = Fulfilled tt ->
  outcome_of (getFfmpeg env o (fs_of (getNwjs env o fs))) <> Fulfilled tt ->
  outcome_of (get env o fs) = outcome_of (getFfmpeg env o (fs_of (getNwjs env o fs))) /\
  trace_of (get env o fs) =
    trace_of (getNwjs env o fs) ++ trace_of (getFfmpeg env o (fs_of (getNwjs env o fs))).
Proof.
  intros Hf Hn Hc. unfold get. rewrite Hf.
  rewrite outcome_bind, trace_bind, Hn, outcome_bind, trace_bind.
  destruct (outcome_of (getFfmpeg env o (fs_of (getNwjs env o fs)))) as [[] | e | e |];
    try congruence; rewrite app_nil_r; split; reflexivity.
Qed.

Lemma failed_codec_ends_get_witness :
  outcome_of (get codec_reset_host linux_full cached_runtime) =
    outcome_of (getFfmpeg codec_reset_host linux_full
                  (fs_of (getNwjs codec_reset_host linux_full cached_runtime))) /\
  trace_of (get codec_reset_host linux_full cached_runtime) =
    trace_of (getNwjs codec_reset_host linux_full cached_runtime) ++
    trace_of (getFfmpeg codec_reset_host linux_full
                (fs_of (getNwjs codec_reset_host linux_full cached_runtime))).
Proof.
  apply (failed_codec_ends_get codec_reset_host linux_full cached_runtime);
    [reflexivity | reflexivity | vm_compute; discriminate].
Defined.

(** X16.  Without [ffmpeg: true] and with [nativeAddon] other than ["gyp"],
    [get] is the runtime pipeline alone. *)
Theorem get_without_extras_is_runtime (env : Env) (o : GetOptions) (fs : FS) :
  ffmpeg o = false ->
  nativeAddon o <> Some "gyp" ->
  get env o fs = getNwjs env o fs.
Proof.
  intros Hf Hg. unfold get. rewrite Hf.
  assert (Hw : wants_gyp o = false).
  { unfold wants_gyp. destruct (nativeAddon o) as [s |]; [| reflexivity].
    destruct (String.eqb_spec s "gyp"); [subst; congruence | reflexivity]. }
  rewrite Hw. unfold bind, ret.
  destruct (getNwjs env o fs) as [[[[] | e | e |] fs1] t1]; try reflexivity.
  now rewrite app_nil_r.
Qed.

Lemma get_without_extras_is_runtime_witness :
  get linux_host linux_normal cached_runtime = getNwjs linux_host linux_normal cached_runtime.
Proof.
  apply (get_without_extras_is_runtime linux_host linux_normal cached_runtime);
    [reflexivity | discriminate].
Defined.

(** ** The progress bar *)

Lemma drive_cons_continue (step : Session -> NetEvent -> (Session + Settled) * list Event)
  (s s' : Session) (ev : NetEvent) (t : list Event) (later : list NetEvent) :
  step s ev = (inl s', t) ->
  drive step s (ev :: later) = (fst (drive step s' later), t ++ snd (drive step s' later)).
Proof.
  intros H. cbn [drive]. rewrite H. now destruct (drive step s' later).
Qed.

(** A body that arrives whole, for a step function that hands the events of
    the piped response to [on_body]. *)
Lemma drive_body (step : Session -> NetEvent -> (Session + Settled) * list Event)
  (lens : list N) (later : list NetEvent) :
  (forall s len, stage s = Streaming -> step s (Data len) = on_body s (Data len)) ->
  (forall s, stage s = Streaming -> step s BodyEnd = on_body s BodyEnd) ->
  forall s, stage s = Streaming ->
  drive step s (map Data lens ++ BodyEnd :: later) =
  (Some Resolve, progress (chunks s) lens ++ [EvBarStop]).
Proof.
  intros Hdata Hend. induction lens as [|len lens IH]; intros s Hs.
  - cbn [map app drive progress]. now rewrite (Hend s Hs).
  - cbn [map app progress]. erewrite drive_cons_continue.
    2: { rewrite (Hdata s len Hs). reflexivity. }
    rewrite IH by reflexivity. reflexivity.
Qed.

Lemma body_two_request_step (follow : bool) (lens : list N) (later : list NetEvent)
  (s : Session) :
  stage s = Streaming ->
  drive (two_request_step follow) s (map Data lens ++ BodyEnd :: later) =
  (Some Resolve, progress (chunks s) lens ++ [EvBarStop]).
Proof.
  apply drive_body; intros s0 **; unfold two_request_step; now rewrite H.
Qed.

Lemma body_one_request_step (lens : list N) (later : list NetEvent) (s : Session) :
  stage s = Streaming ->
  drive one_request_step s (map Data lens ++ BodyEnd :: later) =
  (Some Resolve, progress (chunks s) lens ++ [EvBarStop]).
Proof.
  apply drive_body; intros s0 **; unfold one_request_step; now rewrite H.
Qed.

(** Integers below 2^53 are doubles. *)
Lemma round_exact (n : N) : (n < 2 ^ 53)%N -> Js.round n = Js.Int n.
Proof.
  intros H. unfold Js.round.
  assert (L : (N.size n <= 53)%N).
  { destruct (N.le_gt_cases (N.size n) 53) as [L | G]; [exact L |].
    exfalso. pose proof (N.size_le n) as Hs.
    assert (2 ^ 54 <= 2 ^ N.size n)%N by (apply N.pow_le_mono_r; lia).
    rewrite N.succ_double_spec in Hs.
    change (2 ^ 54)%N with 18014398509481984%N in *.
    change (2 ^ 53)%N with 9007199254740992%N in *. lia. }
  apply N.leb_le in L. now rewrite L.
Qed.

Lemma total_cons (len : N) (lens : list N) : total (len :: lens) = (len + total lens)%N.
Proof. reflexivity. Qed.

(** While the byte count stays below 2^53 the additions are exact: the
    last update of the bar carries the length of the whole body. *)
Lemma progress_ends_at_total (lens : list N) (received : N) :
  lens <> [] ->
  (received + total lens < 2 ^ 53)%N ->
  last (progress (Js.Int received) lens) EvBarStop =
  EvBarUpdate (Js.Int (received + total lens)).
Proof.
  revert received. induction lens as [|n lens IH]; intros received Hne Hlt; [congruence |].
  rewrite total_cons in Hlt.
  assert (Hn : (n < 2 ^ 53)%N) by lia.
  assert (Hs : (received + n < 2 ^ 53)%N) by lia.
  assert (E : Js.add (Js.Int received) (Js.round n) = Js.Int (received + n)).
  { rewrite (round_exact n Hn). cbn [Js.add]. now apply round_exact. }
  cbn [progress]. cbv zeta. rewrite E.
  destruct lens as [|m lens].
  - cbn [progress last total fold_right]. rewrite N.add_0_r. reflexivity.
  - change (last (EvBarIncrement :: EvBarUpdate (Js.Int (received + n))
                    :: progress (Js.Int (received + n)) (m :: lens)) EvBarStop)
      with (last (progress (Js.Int (received + n)) (m :: lens)) EvBarStop).
    rewrite IH; [| discriminate | lia]. rewrite !total_cons. f_equal. f_equal. lia.
Qed.

(** X17.  When the responses arrive and the body comes in chunks and ends,
    the download resolves; the bar is started with [Number] of the
    [content-length] of the response that is piped (the double nearest to
    the announced length, NaN without the header), is incremented once per
    chunk, is updated after each chunk to the running sum of the chunk
    lengths as JavaScript adds them, and is stopped at the end, whatever
    arrives later.  As long as the body is shorter than 2^53 bytes the last
    update carries the number of bytes received, whatever the
    [content-length] header said. *)
Theorem progress_follows_the_body (env : Env) (k : ArtifactKind) (o : GetOptions)
  (first last_response : ResponseHeaders) (lens : list N) (later : list NetEvent) :
  network env k = arrives k first last_response lens later ->
  download env k o =
  (Some Resolve,
   match k with
   | Runtime =>
       [EvRequest (if is_redirecting_mirror o then location first else Some (nwjs_url o))]
   | Codec => [EvRequest (location first)]
   | Headers => []
   end ++
   EvBarStart (Js.Number (content_length last_response)) ::
   progress 0 lens ++ [EvBarStop]) /\
  (lens <> [] -> (total lens < 2 ^ 53)%N ->
   last (progress 0 lens) EvBarStop = EvBarUpdate (Js.Int (total lens))).
Proof.
  intros Hn. split; [| apply (progress_ends_at_total lens 0)].
  destruct k; cbn [download arrives app] in *; rewrite Hn;
    unfold start;
    repeat (erewrite drive_cons_continue; [| reflexivity]);
    rewrite ?body_two_request_step, ?body_one_request_step by reflexivity;
    reflexivity.
Qed.

(** The runtime of [linux_host]; the headers on a host that announces
    2^53 + 1 bytes, which [Number] rounds to 2^53. *)
Lemma progress_follows_the_body_witness :
  (download linux_host Runtime linux_normal =
   (Some Resolve,
    [EvRequest (if is_redirecting_mirror linux_normal
                then location redirecting else Some (nwjs_url linux_normal))] ++
    EvBarStart (Some 10%js) :: progress 0 [4; 6]%N ++ [EvBarStop]) /\
   ([4; 6]%N <> [] -> (total [4; 6]%N < 2 ^ 53)%N ->
    last (progress 0 [4; 6]%N) EvBarStop = EvBarUpdate (Js.Int (total [4; 6]%N)))) /\
  (download huge_host Headers linux_gyp =
   (Some Resolve,
    [] ++ EvBarStart (Some 9007199254740992%js) :: progress 0 [4]%N ++ [EvBarStop]) /\
   ([4]%N <> [] -> (total [4] < 2 ^ 53)%N ->
    last (progress 0 [4]%N) EvBarStop = EvBarUpdate (Js.Int (total [4]%N)))).
Proof.
  split.
  - apply (progress_follows_the_body linux_host Runtime linux_normal redirecting ten_bytes
             [4; 6]%N []).
    reflexivity.
  - apply (progress_follows_the_body huge_host Headers linux_gyp redirecting
             {| location := None; content_length := Some 9007199254740993%N |}
             [4]%N []).
    reflexivity.
Defined.

(** ** What stays in the cache *)

Section Keeps.
Variable env : Env.
Variable p : string.

Lemma keeps_bind {A B} (m : Eff A) (k : A -> Eff B) :
  keeps p m -> (forall a, keeps p (k a)) -> keeps p (bind m k).
Proof.
  intros Hm Hk fs H. rewrite fs_bind. specialize (Hm fs H).
  destruct (outcome_of (m fs)); [now apply Hk | | |]; exact Hm.
Qed.

Lemma keeps_emit (ev : Event) : keeps p (emit ev).
Proof. intros fs H. exact H. Qed.

Lemma keeps_ret {A} (a : A) : keeps p (ret a).
Proof. intros fs H. exact H. Qed.

Lemma keeps_throw {A} (e : Err) : keeps p (@throw A e).
Proof. intros fs H. exact H. Qed.

Lemma keeps_modify (f : FS -> FS) :
  (forall fs, In p fs -> In p (f fs)) -> keeps p (modify f).
Proof. intros Hf fs H. now apply Hf. Qed.

Lemma keeps_try_catch (body : Eff unit) (handler : Err -> Eff unit) :
  keeps p body -> (forall e, keeps p (handler e)) -> keeps p (try_catch body handler).
Proof.
  intros Hb Hh fs H. specialize (Hb fs H). unfold try_catch, fs_of in *.
  destruct (body fs) as [[[a | e | e |] fs1] t1]; cbn [fst snd] in *; try exact Hb.
  specialize (Hh e fs1 Hb). unfold fs_of in Hh.
  now destruct (handler e fs1) as [[r fs2] t2].
Qed.

Lemma keeps_finally (body finalizer : Eff unit) :
  keeps p body -> keeps p finalizer -> keeps p (finally body finalizer).
Proof.
  intros Hb Hf fs H. specialize (Hb fs H). unfold finally, fs_of in *.
  destruct (body fs) as [[[a | e | e |] fs1] t1]; cbn [fst snd] in *; try exact Hb;
    specialize (Hf fs1 Hb); unfold fs_of in Hf;
    now destruct (finalizer fs1) as [[[a' | e' | e' |] fs2] t2].
Qed.

Lemma keeps_rm (d : string) : at_or_below d p = false -> keeps p (rm d).
Proof.
  intros Hd. unfold rm. apply keeps_bind; [apply keeps_emit |]. intros _.
  apply keeps_modify. intros fs H. unfold fs_remove. apply filter_In.
  now rewrite Hd.
Qed.

Lemma keeps_uncompress (fmt : Format) (src dest : string) :
  keeps p (uncompress env fmt src dest).
Proof.
  unfold uncompress. apply keeps_bind; [apply keeps_emit |]. intros _.
  destruct (unpack env fmt src); [apply keeps_throw |].
  apply keeps_modify. intros fs H. apply in_or_app. now right.
Qed.

Lemma keeps_rename (src dst : string) :
  at_or_below src p = false -> keeps p (rename src dst).
Proof.
  intros Hs. unfold rename. apply keeps_bind; [apply keeps_emit |]. intros _ fs H.
  unfold fs_of. destruct (negb (fs_exists fs src)); [exact H |].
  destruct (existsb (Path.below dst) fs); [exact H |]. cbn [fst snd].
  apply in_map_iff. exists p. split; [| exact H]. unfold fs_move. now rewrite Hs.
Qed.

Lemma keeps_entry_walk (o : GetOptions) (zip : list ZipEntry) :
  keeps p (entry_walk env o zip).
Proof.
  unfold entry_walk. apply keeps_finally.
  - apply keeps_try_catch; [| intros e; apply keeps_emit].
    intros fs H. now apply for_await_keeps.
  - unfold zip_close. apply keeps_bind; [apply keeps_emit |]. intros _.
    destruct (close_answer zip); [apply keeps_throw | apply keeps_ret].
Qed.
End Keeps.

(** The unpacked [node] directory and the headers archive lie side by side. *)
Lemma headers_archive_beside_node (cwd : string) (o : GetOptions) :
  valid_target o = true ->
  at_or_below (Path.resolve cwd [cacheDir o; "node"]) (locate cwd Headers o) = false.
Proof.
  intros Hv. destruct (resolve_simple_name cwd (cacheDir o)) as [base Hb].
  unfold locate. rewrite (Hb _ (archive_name_simple Headers o Hv)), (Hb "node" eq_refl).
  unfold at_or_below, Path.below. rewrite app_assoc_s, prefix_app_head.
  apply orb_false_iff. split; [| reflexivity].
  apply String.eqb_neq. intros H. apply app_inv_head_s in H. discriminate H.
Qed.

Lemma after_download_keeps (env : Env) (k : ArtifactKind) (o : GetOptions) :
  valid_target o = true ->
  keeps (locate (cwd env) k o) (after_download env k o).
Proof.
  intros Hv. destruct k; cbn [after_download].
  - unfold extract_nwjs. apply keeps_bind.
    { apply keeps_rm. fold (nwDir (cwd env) o).
      rewrite (runtime_archive_path (cwd env) o Hv).
      apply (beside_not_below _ (archive_ext o)), at_or_below_refl. }
    intros _. destruct ((platform o =? "osx") && (PLATFORM env =? "darwin")).
    + apply keeps_bind; [| intros zip; apply keeps_entry_walk].
      unfold yauzl_open. apply keeps_bind; [apply keeps_emit |]. intros _.
      destruct (zip_open env _); [apply keeps_throw | apply keeps_ret].
    + apply keeps_uncompress.
  - apply keeps_bind; [apply keeps_uncompress |]. intros _.
    unfold replaceFfmpeg. apply keeps_bind; [apply keeps_emit |]. intros _.
    destruct (relocate_error env); [apply keeps_throw | apply keeps_ret].
  - apply keeps_bind; [apply keeps_uncompress |]. intros _.
    apply keeps_rename. now apply headers_archive_beside_node.
Qed.

(** X18.  For a valid target, a pipeline that fetches and whose destination
    stream could be opened leaves its archive in the cache directory however
    it ends: nothing after the creation of the write stream removes or moves
    the file, also with [cache = false].  With [cache = true] the next run
    therefore finds it. *)
Theorem fetched_archive_is_kept (env : Env) (k : ArtifactKind) (o : GetOptions) (fs : FS) :
  valid_target o = true ->
  cache_hit env k o fs = false ->
  stream_opens (network env k) = true ->
  In (locate (cwd env) k o) (fs_of (pipeline env k o fs)) /\
  (cache o = true -> cache_hit env k o (fs_of (pipeline env k o fs)) = true).
Proof.
  intros Hv Hmiss Hopen.
  assert (Hin : In (locate (cwd env) k o) (fs_of (pipeline env k o fs))).
  { destruct (pipeline_miss env o k fs Hmiss) as (_ & _ & ->).
    unfold with_archive. rewrite Hopen.
    destruct (fst (download env k o)) as [[| e | e] |]; try (left; reflexivity).
    apply (after_download_keeps env k o Hv). now left. }
  split; [exact Hin |]. intros Hc. unfold cache_hit. rewrite Hc. cbn [andb].
  unfold fs_exists. apply existsb_exists. eexists. split; [exact Hin |].
  apply at_or_below_refl.
Qed.

Lemma fetched_archive_is_kept_witness :
  In (locate (cwd linux_host) Headers linux_gyp)
     (fs_of (pipeline linux_host Headers linux_gyp [])) /\
  (cache linux_gyp = true ->
   cache_hit linux_host Headers linux_gyp (fs_of (pipeline linux_host Headers linux_gyp []))
   = true).
Proof.
  apply (fetched_archive_is_kept linux_host Headers linux_gyp []); reflexivity.
Defined.

(** ** Fetching the headers again *)

(** The renamed headers directory and the headers archive lie side by side. *)
Lemma node_dir_beside_archive (cwd : string) (o : GetOptions) (q : string) :
  valid_target o = true ->
  Path.below (nodeDir cwd o) q = true -> at_or_below (locate cwd Headers o) q = false.
Proof.
  intros Hv Hq. destruct (resolve_simple_name cwd (cacheDir o)) as [base Hb].
  unfold nodeDir, locate in *.
  rewrite (Hb _ (archive_name_simple Headers o Hv)).
  rewrite (Hb _ (node_dir_name_simple o Hv)) in Hq.
  unfold Path.below in Hq. apply prefix_app_elim in Hq as [w ->].
  unfold at_or_below, Path.below. rewrite !app_assoc_s, prefix_app_head.
  apply orb_false_iff. split; [| reflexivity].
  apply String.eqb_neq. intros H. apply app_inv_head_s in H. discriminate H.
Qed.

(** X19.  The fetch path of the headers pipeline does not remove the renamed
    headers directory.  When that directory is there and is not empty, a
    fetch that downloads and unpacks the [node] directory ends with the
    rejection of [rename]. *)
Theorem headers_refetch_rejects (env : Env) (o : GetOptions) (fs : FS)
  (entries : list string) :
  valid_target o = true ->
  cache_hit env Headers o fs = false ->
  existsb (Path.below (nodeDir (cwd env) o)) fs = true ->
  fst (download env Headers o) = Some Resolve ->
  unpack env Tgz (locate (cwd env) Headers o) = inr entries ->
  fs_exists (map (fun n => resolve env [cacheDir o; n]) entries)
            (resolve env [cacheDir o; "node"]) = true ->
  outcome_of (getNodeHeaders env o fs) = Rejected "ENOTEMPTY" /\
  existsb (Path.below (nodeDir (cwd env) o)) (fs_of (getNodeHeaders env o fs)) = true.
Proof.
  intros Hv Hmiss Hdir Hd Hu Hnode.
  change (getNodeHeaders env o fs) with (pipeline env Headers o fs).
  destruct (pipeline_miss env o Headers fs Hmiss) as (_ & -> & ->). rewrite Hd.
  cbn [after_download].
  set (out := locate (cwd env) Headers o).
  set (fs0 := if cache o then fs else fs_remove fs out).
  assert (Hdir0 : existsb (Path.below (nodeDir (cwd env) o)) fs0 = true).
  { unfold fs0. destruct (cache o); [exact Hdir |].
    apply existsb_exists in Hdir as (q & Hq & Hb). apply existsb_exists.
    exists q. split; [| exact Hb]. unfold fs_remove. apply filter_In.
    split; [exact Hq |]. unfold out. now rewrite (node_dir_beside_archive _ _ _ Hv Hb). }
  assert (Hdir1 : existsb (Path.below (nodeDir (cwd env) o))
                    (with_archive env Headers o fs0) = true).
  { unfold with_archive. destruct (stream_opens (network env Headers)); [| exact Hdir0].
    cbn [existsb]. now rewrite Hdir0, orb_true_r. }
  set (fs1 := with_archive env Headers o fs0) in *.
  fold out in Hu. unfold uncompress, rename. rewrite Hu.
  unfold bind, emit, modify, outcome_of, fs_of. cbn [fst snd].
  rewrite fs_exists_app, Hnode. cbn [orb negb].
  rewrite existsb_app, Hdir1, !orb_true_r.
  cbn [fst snd]. split; [reflexivity |].
  now rewrite existsb_app, Hdir1, !orb_true_r.
Qed.

Lemma headers_refetch_rejects_witness :
  outcome_of (getNodeHeaders linux_host linux_gyp_uncached extracted_headers) =
    Rejected "ENOTEMPTY" /\
  existsb (Path.below (nodeDir (cwd linux_host) linux_gyp_uncached))
    (fs_of (getNodeHeaders linux_host linux_gyp_uncached extracted_headers)) = true.
Proof.
  apply (headers_refetch_rejects linux_host linux_gyp_uncached extracted_headers
           ["node/common.gypi"]); reflexivity.
Defined.

(** ** A full cache *)

Lemma fs_exists_kept {A} (m : Eff A) (fs : FS) (p : string) :
  (forall q, at_or_below p q = true -> keeps q m) ->
  fs_exists fs p = true -> fs_exists (fs_of (m fs)) p = true.
Proof.
  intros Hk He. unfold fs_exists in *. apply existsb_exists in He as (q & Hq & Hb).
  apply existsb_exists. exists q. split; [now apply (Hk q Hb) | exact Hb].
Qed.

(** Two names in one directory that differ in their first character: what is
    at or below one is not at or below the other. *)
Lemma sibling_not_below (base : string) (c1 c2 : ascii) (a b q : string) :
  c1 <> c2 ->
  at_or_below (base +:+ String c1 a) q = true ->
  at_or_below (base +:+ String c2 b) q = false.
Proof.
  intros Hne H.
  assert (exists w, q = base +:+ String c1 w) as [w ->].
  { unfold at_or_below, Path.below in H. apply orb_true_iff in H as [H | H].
    - apply String.eqb_eq in H. now exists a.
    - apply prefix_app_elim in H as [x ->]. exists (a +:+ "/" +:+ x).
      now rewrite !app_assoc_s. }
  unfold at_or_below, Path.below. apply orb_false_iff. split.
  - apply String.eqb_neq. intros E. apply app_inv_head_s in E. congruence.
  - rewrite app_assoc_s, prefix_app_head. cbn.
    destruct (ascii_dec c2 c1); [congruence | reflexivity].
Qed.

(** The codec and the headers archives are not below the runtime directory. *)
Lemma archive_outside_runtime (cwd : string) (k : ArtifactKind) (o : GetOptions) (q : string) :
  valid_target o = true ->
  at_or_below (locate cwd k o) q = true -> at_or_below (nwDir cwd o) q = false.
Proof.
  intros Hv. destruct k.
  - rewrite (runtime_archive_path cwd o Hv). apply beside_not_below.
  - destruct (resolve_simple_name cwd (cacheDir o)) as [base Hb]. unfold locate, nwDir.
    rewrite (Hb _ (archive_name_simple Codec o Hv)), (Hb _ (nwjs_dir_name_simple o Hv)).
    apply sibling_not_below. discriminate.
  - destruct (resolve_simple_name cwd (cacheDir o)) as [base Hb]. unfold locate, nwDir.
    rewrite (Hb _ (archive_name_simple Headers o Hv)), (Hb _ (nwjs_dir_name_simple o Hv)).
    apply sibling_not_below. discriminate.
Qed.

(** On a cache hit the runtime and the codec pipelines leave every archive of
    the target where it is. *)
Lemma hit_keeps_archives (env : Env) (k k' : ArtifactKind) (o : GetOptions) (fs : FS) :
  valid_target o = true ->
  k <> Headers ->
  cache_hit env k o fs = true ->
  fs_exists fs (locate (cwd env) k' o) = true ->
  fs_exists (fs_of (pipeline env k o fs)) (locate (cwd env) k' o) = true.
Proof.
  intros Hv Hk Hit He. rewrite (pipeline_hit env k o fs Hit).
  destruct k; [| | congruence]; apply fs_exists_kept; try exact He; intros q Hq.
  - apply keeps_bind; [| intros _; apply keeps_uncompress].
    apply keeps_rm. exact (archive_outside_runtime _ _ _ _ Hv Hq).
  - apply keeps_uncompress.
Qed.

(** X20.  With [cache = true] and the archive of every pipeline that the
    options ask for in the cache directory, [get] makes no request: neither
    the extraction of the runtime nor that of the codec removes an archive a
    later pipeline looks for. *)
Theorem full_cache_needs_no_network (env : Env) (o : GetOptions) (fs : FS) :
  valid_target o = true ->
  cache o = true ->
  (forall k, wanted k o = true -> fs_exists fs (locate (cwd env) k o) = true) ->
  requests (trace_of (get env o fs)) = [].
Proof.
  intros Hv Hc Hall.
  assert (Hhit : forall k fs', fs_exists fs' (locate (cwd env) k o) = true ->
                               cache_hit env k o fs' = true).
  { intros k fs' H. unfold cache_hit. now rewrite Hc, H. }
  pose proof (Hhit Runtime fs (Hall Runtime eq_refl)) as Hit1.
  unfold get. rewrite trace_bind, requests_app.
  change (getNwjs env o fs) with (pipeline env Runtime o fs).
  rewrite (cache_hit_no_requests env Runtime o fs Hit1). cbn [app].
  destruct (outcome_of (pipeline env Runtime o fs)) as [[] | e | e |]; try reflexivity.
  assert (H1 : forall k, wanted k o = true ->
                 fs_exists (fs_of (pipeline env Runtime o fs)) (locate (cwd env) k o) = true).
  { intros k Hw. apply hit_keeps_archives; auto. discriminate. }
  set (fs1 := fs_of (pipeline env Runtime o fs)) in *.
  rewrite trace_bind, requests_app.
  assert (H2 : requests (trace_of ((if ffmpeg o then getFfmpeg env o else ret tt) fs1)) = [] /\
               (wants_gyp o = true ->
                fs_exists (fs_of ((if ffmpeg o then getFfmpeg env o else ret tt) fs1))
                  (locate (cwd env) Headers o) = true)).
  { destruct (ffmpeg o) eqn:Hf.
    - pose proof (Hhit Codec fs1 (H1 Codec Hf)) as Hit2. split.
      + exact (cache_hit_no_requests env Codec o fs1 Hit2).
      + intros Hw. apply (hit_keeps_archives env Codec Headers o fs1); auto. discriminate.
    - split; [reflexivity |]. intros Hw. exact (H1 Headers Hw). }
  destruct H2 as (-> & H2). cbn [app].
  destruct (outcome_of ((if ffmpeg o then getFfmpeg env o else ret tt) fs1));
    try reflexivity.
  destruct (wants_gyp o); [| reflexivity].
  exact (cache_hit_no_requests env Headers o _ (Hhit Headers _ (H2 eq_refl))).
Qed.

Lemma full_cache_needs_no_network_witness :
  requests (trace_of (get linux_host linux_full full_cache)) = [].
Proof.
  apply (full_cache_needs_no_network linux_host linux_full full_cache);
    [reflexivity | reflexivity |].
  intros [] _; reflexivity.
Defined.
